(** * Controllable space ship rendering: collision check and movement

    A shallow embedding of the custom logic of the scene demo:

    - [CompoundObject.move] of [src/js/CompoundObject.js], which moves the
      space ship on a sphere around the earth;
    - the older [move] of the compound object, which translates the group;
    - [#checkCollision], [#update] and [animate] of the [Main] class, with the
      part of three.js they call ([Object3D.add], [Object3D.remove]).

    JavaScript numbers are taken in real arithmetic: a finite number is a
    real, and the three special values of IEEE 754 that the code can produce
    (NaN and the two infinities) are kept, because a division by zero or a
    square root of a negative number yields them.  Rounding and the sign of
    zero are not modelled.

    The test of the collision check is also run on the binary64 numbers
    themselves (module [Double]), where it rounds and overflows as the
    program does. *)

From Stdlib Require Import Reals Lra Lia List Bool Arith Zfloor.
From Stdlib Require Floats.PrimFloat Floats.FloatOps Floats.SpecFloat.
From Equations Require Import Equations.
Import ListNotations.

Open Scope R_scope.

(** ** JavaScript numbers *)

Module JS.

Inductive number : Type :=
| NaN
| Inf (negative : bool)
| Fin (r : R).

Definition Rneg (r : R) : bool := if Rlt_dec r 0 then true else false.
Definition Rzero (r : R) : bool := if Req_dec_T r 0 then true else false.

(** [a + b] *)
Definition add (a b : number) : number :=
  match a, b with
  | NaN, _ | _, NaN => NaN
  | Inf s, Inf t => if Bool.eqb s t then Inf s else NaN
  | Inf s, Fin _ | Fin _, Inf s => Inf s
  | Fin x, Fin y => Fin (x + y)
  end.

(** [- a] *)
Definition neg (a : number) : number :=
  match a with
  | NaN => NaN
  | Inf s => Inf (negb s)
  | Fin x => Fin (- x)
  end.

(** [a - b] *)
Definition sub (a b : number) : number := add a (neg b).

(** [a * b] *)
Definition mul (a b : number) : number :=
  match a, b with
  | NaN, _ | _, NaN => NaN
  | Inf s, Inf t => Inf (xorb s t)
  | Inf s, Fin y | Fin y, Inf s => if Rzero y then NaN else Inf (xorb s (Rneg y))
  | Fin x, Fin y => Fin (x * y)
  end.

(** [a / b]; a zero divisor is the positive zero. *)
Definition div (a b : number) : number :=
  match a, b with
  | NaN, _ | _, NaN => NaN
  | Inf _, Inf _ => NaN
  | Inf s, Fin y => Inf (xorb s (Rneg y))
  | Fin _, Inf _ => Fin 0
  | Fin x, Fin y =>
      if Rzero y then (if Rzero x then NaN else Inf (Rneg x)) else Fin (x / y)
  end.

(** [a <= b] *)
Definition number_le (a b : number) : bool :=
  match a, b with
  | NaN, _ | _, NaN => false
  | Inf true, _ => true
  | _, Inf false => true
  | Inf false, _ => false
  | _, Inf true => false
  | Fin x, Fin y => if Rle_dec x y then true else false
  end.

(** [a < b] *)
Definition number_lt (a b : number) : bool :=
  match a, b with
  | NaN, _ | _, NaN => false
  | Inf s, Inf t => s && negb t
  | Inf s, Fin _ => s
  | Fin _, Inf t => negb t
  | Fin x, Fin y => if Rlt_dec x y then true else false
  end.

(** [a !== b] on numbers *)
Definition strict_neq (a b : number) : bool :=
  match a, b with
  | NaN, _ | _, NaN => true
  | Inf s, Inf t => negb (Bool.eqb s t)
  | Inf _, Fin _ | Fin _, Inf _ => true
  | Fin x, Fin y => if Req_dec_T x y then false else true
  end.

(** The value a property read yields in arithmetic: an absent property is
    [undefined], which converts to NaN. *)
Definition to_number (v : option number) : number :=
  match v with
  | Some n => n
  | None => NaN
  end.

Definition Math_abs (a : number) : number :=
  match a with
  | NaN => NaN
  | Inf _ => Inf false
  | Fin x => Fin (Rabs x)
  end.

Definition Math_sqrt (a : number) : number :=
  match a with
  | NaN => NaN
  | Inf s => if s then NaN else Inf false
  | Fin x => if Rneg x then NaN else Fin (sqrt x)
  end.

Definition Math_sin (a : number) : number :=
  match a with
  | Fin x => Fin (sin x)
  | _ => NaN
  end.

Definition Math_cos (a : number) : number :=
  match a with
  | Fin x => Fin (cos x)
  | _ => NaN
  end.

Definition Math_acos (a : number) : number :=
  match a with
  | Fin x =>
      if Rle_dec (-1) x then (if Rle_dec x 1 then Fin (acos x) else NaN) else NaN
  | _ => NaN
  end.

Definition Math_min (a b : number) : number :=
  match a, b with
  | NaN, _ | _, NaN => NaN
  | Inf true, _ | _, Inf true => Inf true
  | Inf false, c | c, Inf false => c
  | Fin x, Fin y => Fin (Rmin x y)
  end.

Definition Math_max (a b : number) : number :=
  match a, b with
  | NaN, _ | _, NaN => NaN
  | Inf false, _ | _, Inf false => Inf false
  | Inf true, c | c, Inf true => c
  | Fin x, Fin y => Fin (Rmax x y)
  end.

(** The angle of the point of abscissa [x] and ordinate [y], in ]-PI, PI]. *)
Definition Ratan2 (y x : R) : R :=
  if Rlt_dec 0 x then atan (y / x)
  else if Rlt_dec x 0 then
    (if Rlt_dec y 0 then atan (y / x) - PI else atan (y / x) + PI)
  else if Rlt_dec 0 y then PI / 2
  else if Rlt_dec y 0 then - (PI / 2)
  else 0.

(** [Math.atan2(y, x)] *)
Definition Math_atan2 (y x : number) : number :=
  match y, x with
  | NaN, _ | _, NaN => NaN
  | Inf sy, Inf sx =>
      Fin ((if sy then -1 else 1) * (if sx then 3 * PI / 4 else PI / 4))
  | Inf sy, Fin _ => Fin (if sy then - (PI / 2) else PI / 2)
  | Fin y, Inf sx => if sx then Fin (if Rneg y then - PI else PI) else Fin 0
  | Fin y, Fin x => Fin (Ratan2 y x)
  end.

(** [Math.floor] and [Math.ceil] *)
Definition Math_floor (a : number) : number :=
  match a with
  | Fin x => Fin (IZR (Zfloor x))
  | _ => a
  end.

Definition Math_ceil (a : number) : number :=
  match a with
  | Fin x => Fin (IZR (Zceil x))
  | _ => a
  end.

End JS.

Import JS.

Declare Scope js_scope.
Delimit Scope js_scope with js.
Bind Scope js_scope with number.
Infix "+" := add : js_scope.
Infix "-" := sub : js_scope.
Infix "*" := mul : js_scope.
Infix "/" := div : js_scope.
Infix "<=?" := number_le : js_scope.
Infix "<?" := number_lt : js_scope.
Infix "!==" := strict_neq (at level 70) : js_scope.

(** ** JavaScript arrays of object references *)

Definition ObjId : Type := nat.
Bind Scope nat_scope with ObjId.

(** A method returns its result and the receiver as the call leaves it. *)
Module Array.

Fixpoint indexOf (l : list ObjId) (o : ObjId) : option nat :=
  match l with
  | [] => None
  | o' :: l' =>
      if Nat.eqb o' o then Some 0%nat
      else match indexOf l' o with
           | Some n => Some (S n)
           | None => None
           end
  end.

(** [l.splice(start, deleteCount)] takes the elements out of the receiver. *)
Definition splice (l : list ObjId) (start deleteCount : nat)
    : list ObjId * list ObjId :=
  (firstn deleteCount (skipn start l),
   firstn start l ++ skipn (start + deleteCount) l).

(** [l.slice(start, end)] copies the elements from [start] up to [end]. *)
Definition slice (l : list ObjId) (start end_ : nat) : list ObjId * list ObjId :=
  let k := Nat.min start (length l) in
  let final := Nat.min end_ (length l) in
  (firstn (final - k) (skipn k l), l).

(** [l.push(o)] *)
Definition push (l : list ObjId) (o : ObjId) : list ObjId := l ++ [o].

End Array.

(** ** The part of three.js the program uses

    three.js is a library the repository loads; positions, the scene graph
    and the two methods below follow its documentation. *)

Module Vector3.
Record t : Type := mk { x : number; y : number; z : number }.
Definition set_x (v : number) (p : t) : t := mk v (y p) (z p).
Definition set_y (v : number) (p : t) : t := mk (x p) v (z p).
Definition set_z (v : number) (p : t) : t := mk (x p) (y p) v.
Definition zero : t := mk (Fin 0) (Fin 0) (Fin 0).
End Vector3.

Module Object3D.

(** [raioCol] is the property the program adds to the debris meshes. *)
Record t : Type := mk {
  position : Vector3.t;
  parent : option ObjId;
  children : list ObjId;
  raioCol : option number
}.

Definition set_position (f : Vector3.t -> Vector3.t) (o : t) : t :=
  mk (f (position o)) (parent o) (children o) (raioCol o).
Definition set_parent (p : option ObjId) (o : t) : t :=
  mk (position o) p (children o) (raioCol o).
Definition set_children (l : list ObjId) (o : t) : t :=
  mk (position o) (parent o) l (raioCol o).
Definition set_raioCol (r : number) (o : t) : t :=
  mk (position o) (parent o) (children o) (Some r).

(** A new object: at the origin, with no parent and no child. *)
Definition fresh : t := mk Vector3.zero None [] None.

End Object3D.

(** The objects, by reference. *)
Definition Heap : Type := ObjId -> Object3D.t.

Definition modify (h : Heap) (o : ObjId) (f : Object3D.t -> Object3D.t) : Heap :=
  fun o' => if Nat.eqb o' o then f (h o') else h o'.

(** [this.remove(object)] of [Object3D]. *)
Definition Object3D_remove (this object : ObjId) (h : Heap) : Heap :=
  match Array.indexOf (Object3D.children (h this)) object with
  | Some index =>
      let h := modify h object (Object3D.set_parent None) in
      modify h this
        (fun o => Object3D.set_children
                    (snd (Array.splice (Object3D.children o) index 1)) o)
  | None => h
  end.

(** [this.add(object)] of [Object3D]: the object leaves its former parent. *)
Definition Object3D_add (this object : ObjId) (h : Heap) : Heap :=
  if Nat.eqb object this then h
  else
    let h := match Object3D.parent (h object) with
             | Some p => Object3D_remove p object h
             | None => h
             end in
    let h := modify h object (Object3D.set_parent (Some this)) in
    modify h this
      (fun o => Object3D.set_children (Array.push (Object3D.children o) object) o).

(** Modelled from the spec: the [Direction] enumeration is declared in a file
    that is not part of the sources; [move] switches on its four values. *)
Inductive Direction : Type := UP | DOWN | LEFT | RIGHT.

(** ** [CompoundObject] of [src/js/CompoundObject.js] *)

Module CompoundObject.

(** [raioCol] is the property [#buildScene] adds to the compound. *)
Record t : Type := mk {
  primary : ObjId;
  secondary : ObjId;
  group : ObjId;
  raioCol : option number
}.

Definition set_primary (o : ObjId) (c : t) : t :=
  mk o (secondary c) (group c) (raioCol c).
Definition set_secondary (o : ObjId) (c : t) : t :=
  mk (primary c) o (group c) (raioCol c).
Definition set_raioCol (r : number) (c : t) : t :=
  mk (primary c) (secondary c) (group c) (Some r).

Definition _MOVE_STEP : number := Fin 3.

(** [setPrimary(primary)] *)
Definition setPrimary (o : ObjId) (c : t) (h : Heap) : t * Heap :=
  let h := Object3D_add (group c) o h in
  (set_primary o c, h).

(** [setSecondary(secondary)] *)
Definition setSecondary (o : ObjId) (c : t) (h : Heap) : t * Heap :=
  let h := Object3D_add (group c) o h in
  let h := Object3D_add (primary c) o h in
  (set_secondary o c, h).

(** [#applyRotation(radius, theta, phi)]: three assignments to the position
    of the primary, to [x], to [z] and to [y]. *)
Definition applyRotation (c : t) (radius theta phi : number) (h : Heap) : Heap :=
  let h := modify h (primary c) (Object3D.set_position
             (Vector3.set_x (Math_sin phi * radius * Math_sin theta)%js)) in
  let h := modify h (primary c) (Object3D.set_position
             (Vector3.set_z (Math_sin phi * radius * Math_cos theta)%js)) in
  modify h (primary c) (Object3D.set_position
    (Vector3.set_y (Math_cos phi * radius)%js)).

(** The angles [move] recovers from the position [p] of the primary, and the
    argument it gives to [Math.acos]. *)
Definition theta (p : Vector3.t) : number :=
  Math_atan2 (Vector3.x p) (Vector3.z p).

Definition clamped (p : Vector3.t) (radius : number) : number :=
  Math_max (Fin (-1)) (Math_min (Fin 1) (Vector3.y p / radius)%js).

Definition phi (p : Vector3.t) (radius : number) : number :=
  Math_acos (clamped p radius).

(** [move(direction, delta, radius)] *)
Definition move (c : t) (direction : Direction) (delta radius : number)
    (h : Heap) : Heap :=
  let p := Object3D.position (h (primary c)) in
  let theta := theta p in
  let phi := phi p radius in
  match direction with
  | UP => applyRotation c radius theta (phi + _MOVE_STEP * delta)%js h
  | DOWN => applyRotation c radius theta (phi - _MOVE_STEP * delta)%js h
  | LEFT => applyRotation c radius (theta + _MOVE_STEP * delta)%js phi h
  | RIGHT => applyRotation c radius (theta - _MOVE_STEP * delta)%js phi h
  end.

End CompoundObject.

(** ** The earlier [CompoundObject], which translates its group *)

Module GroupCompoundObject.

Definition __MOVE_STEP : number := Fin 20.

Definition add_y (v : number) (p : Vector3.t) : Vector3.t :=
  Vector3.set_y (Vector3.y p + v)%js p.
Definition sub_y (v : number) (p : Vector3.t) : Vector3.t :=
  Vector3.set_y (Vector3.y p - v)%js p.
Definition add_x (v : number) (p : Vector3.t) : Vector3.t :=
  Vector3.set_x (Vector3.x p + v)%js p.
Definition sub_x (v : number) (p : Vector3.t) : Vector3.t :=
  Vector3.set_x (Vector3.x p - v)%js p.

(** [move(direction, delta)] *)
Definition move (c : CompoundObject.t) (direction : Direction) (delta : number)
    (h : Heap) : Heap :=
  let g := CompoundObject.group c in
  match direction with
  | UP => modify h g (Object3D.set_position (add_y (__MOVE_STEP * delta)%js))
  | DOWN => modify h g (Object3D.set_position (sub_y (__MOVE_STEP * delta)%js))
  | LEFT => modify h g (Object3D.set_position (sub_x (__MOVE_STEP * delta)%js))
  | RIGHT => modify h g (Object3D.set_position (add_x (__MOVE_STEP * delta)%js))
  end.

End GroupCompoundObject.

(** ** The [Main] class *)

(** The steps made so far, in the order they were made: a debris examined
    by the collision check, with the distance found and the bound it is
    compared with, a call of [remove] on the scene, and the calls that
    [#update] and [#display] make. *)
Inductive Event : Type :=
| Examined (i : nat) (o : ObjId) (distance threshold : number)
| SceneRemove (o : ObjId)
| KeysProcessed
| LookedAt
| Rendered.

(** The key controller is in a file that is not part of the sources, and is
    a parameter of [#update].  [processKeyPressed] receives the context, the
    array of the scene objects, the compound, the time step and the orbit
    radius: it reaches the objects, that array and the compound, and neither
    the litter array nor the scene field, which are private to [Main]. *)
Definition KeyController : Type :=
  Heap -> list ObjId -> CompoundObject.t -> number -> number ->
  Heap * list ObjId * CompoundObject.t.

Module Main.

(** [log] is a ghost field, which the program does not read. *)
Record t : Type := mk {
  heap : Heap;
  scene : ObjId;
  compound : CompoundObject.t;
  litter : list ObjId;
  sceneObjects : list ObjId;
  log : list Event
}.

Definition set_heap (h : Heap) (m : t) : t :=
  mk h (scene m) (compound m) (litter m) (sceneObjects m) (log m).
Definition set_compound (c : CompoundObject.t) (m : t) : t :=
  mk (heap m) (scene m) c (litter m) (sceneObjects m) (log m).
Definition set_litter (l : list ObjId) (m : t) : t :=
  mk (heap m) (scene m) (compound m) l (sceneObjects m) (log m).
Definition set_sceneObjects (l : list ObjId) (m : t) : t :=
  mk (heap m) (scene m) (compound m) (litter m) l (log m).
Definition emit (e : Event) (m : t) : t :=
  mk (heap m) (scene m) (compound m) (litter m) (sceneObjects m) (log m ++ [e]).

Definition _EARTH_RADIUS : number := Fin 70.

(** *** [#buildScene]

    The construction keeps, with the state of [Main], the next reference to
    hand out and the number of calls made to [Math.random]; [rnd k] is the
    value of call number [k]. *)
Record Build : Type := mkBuild { built : t; next : ObjId; draws : nat }.

Definition new_object (b : Build) : ObjId * Build :=
  (next b, mkBuild (built b) (S (next b)) (draws b)).

Definition random (rnd : nat -> R) (b : Build) : number * Build :=
  (Fin (rnd (draws b)), mkBuild (built b) (next b) (S (draws b))).

Definition on_main (f : t -> t) (b : Build) : Build :=
  mkBuild (f (built b)) (next b) (draws b).

Definition on_heap (f : Heap -> Heap) (b : Build) : Build :=
  on_main (fun m => set_heap (f (heap m)) m) b.

Definition on_compound
    (f : CompoundObject.t -> Heap -> CompoundObject.t * Heap) (b : Build) : Build :=
  on_main (fun m => let (c, h) := f (compound m) (heap m) in
                    set_compound c (set_heap h m)) b.

(** [a ** 2] *)
Definition pow2 (a : number) : number := (a * a)%js.

(** [Math.floor(Math.random() * (max - min)) + min] *)
Definition randomInt (rnd : nat -> R) (min max : number) (b : Build)
    : number * Build :=
  let (r, b) := random rnd b in
  ((Math_floor (r * (max - min)) + min)%js, b).

(** The position drawn for a debris and for the ship: [x], [y], and [z] on
    one side or the other. *)
Definition orbitPosition (rnd : nat -> R) (min max : number) (b : Build)
    : Vector3.t * Build :=
  let (x, b) := randomInt rnd min max b in
  let (y, b) := randomInt rnd min max b in
  let (pos, b) := random rnd b in
  let s := Math_sqrt (pow2 (_EARTH_RADIUS * Fin (12 / 10)) - pow2 x - pow2 y)%js in
  (Vector3.mk x y (if (Fin (5 / 10) <=? pos)%js then s else neg s), b).

Definition place (o : ObjId) (p : Vector3.t) (h : Heap) : Heap :=
  let h := modify h o (Object3D.set_position (Vector3.set_x (Vector3.x p))) in
  let h := modify h o (Object3D.set_position (Vector3.set_y (Vector3.y p))) in
  modify h o (Object3D.set_position (Vector3.set_z (Vector3.z p))).

(** [scene.add(cube)], [this.#sceneObjects.push(cube)] and
    [this.#litter.push(cube)] *)
Definition addLitter (o : ObjId) (m : t) : t :=
  let m := set_heap (Object3D_add (scene m) o (heap m)) m in
  let m := set_sceneObjects (Array.push (sceneObjects m) o) m in
  set_litter (Array.push (litter m) o) m.

Definition sizeMin : number := Math_ceil (_EARTH_RADIUS / Fin 24)%js.
Definition sizeMax : number := Math_floor (_EARTH_RADIUS / Fin 20)%js.
Definition orbitMin : number := Math_ceil (_EARTH_RADIUS * Fin (12 / 10))%js.
Definition orbitMax : number := Math_floor (neg (_EARTH_RADIUS * Fin (12 / 10))%js).

(** One turn of the loop of the cubes. *)
Definition cube (rnd : nat -> R) (b : Build) : Build :=
  let (size, b) := randomInt rnd sizeMin sizeMax b in
  let (o, b) := new_object b in
  let (p, b) := orbitPosition rnd orbitMin orbitMax b in
  let b := on_heap (place o p) b in
  let b := on_heap (fun h => modify h o
             (Object3D.set_raioCol (Math_sqrt (Fin 3) / Fin 2 * size)%js)) b in
  on_main (addLitter o) b.

(** One turn of the loops of the cylinders, of the cones and of the
    pyramids, which differ by the geometry and by the way [min] and [max]
    are written. *)
Definition cylinder (rnd : nat -> R) (min max : number) (b : Build) : Build :=
  let (height, b) := randomInt rnd sizeMin sizeMax b in
  let (radius, b) := randomInt rnd sizeMin sizeMax b in
  let radius := (radius / Fin 2)%js in
  let (o, b) := new_object b in
  let b := on_heap (fun h => modify h o
             (Object3D.set_raioCol
                (Math_sqrt (pow2 radius + pow2 (height / Fin 2))%js))) b in
  let (p, b) := orbitPosition rnd min max b in
  let b := on_heap (place o p) b in
  on_main (addLitter o) b.

(** A part of the ship, at [p] in the frame of the primary. *)
Definition shipPart (p : Vector3.t) (b : Build) : Build :=
  let (o, b) := new_object b in
  let b := on_heap (place o p) b in
  on_compound (CompoundObject.setSecondary o) b.

Definition spaceship (rnd : nat -> R) (followCamera : ObjId) (b : Build) : Build :=
  let (_, b) := new_object b in
  let (p, b) := orbitPosition rnd orbitMin orbitMax b in
  let (spaceshipBody, b) := new_object b in
  let b := on_heap (place spaceshipBody Vector3.zero) b in
  let b := on_compound (CompoundObject.setPrimary spaceshipBody) b in
  let b := on_compound (CompoundObject.setSecondary followCamera) b in
  let b := on_heap (place followCamera
             (Vector3.mk (Fin 0) (Fin (-30)) (Fin (-30)))) b in
  let b := on_heap (place spaceshipBody p) b in
  let b := shipPart (Vector3.mk (Fin 0) (Fin (35 / 10)) (Fin 0)) b in
  let b := shipPart (Vector3.mk (Fin 0) (Fin (-2)) (Fin (28 / 10))) b in
  let b := shipPart (Vector3.mk (Fin (-28 / 10)) (Fin (-2)) (Fin 0)) b in
  let b := shipPart (Vector3.mk (Fin (28 / 10)) (Fin (-2)) (Fin 0)) b in
  let b := shipPart (Vector3.mk (Fin 0) (Fin (-2)) (Fin (-28 / 10))) b in
  let b := on_main (fun m =>
             set_compound (CompoundObject.set_raioCol (Fin (552 / 100)) (compound m)) m) b in
  let b := on_main (fun m =>
             set_heap (Object3D_add (scene m) (CompoundObject.group (compound m))
                         (heap m)) m) b in
  on_main (fun m =>
    set_sceneObjects
      (Array.push (sceneObjects m) (CompoundObject.group (compound m))) m) b.

Definition buildScene (rnd : nat -> R) (followCamera : ObjId) (b : Build) : Build :=
  let (ball, b) := new_object b in
  let b := on_heap (place ball Vector3.zero) b in
  let b := on_main (fun m => set_heap (Object3D_add (scene m) ball (heap m)) m) b in
  let b := on_main (fun m => set_sceneObjects (Array.push (sceneObjects m) ball) m) b in
  let b := Nat.iter 5 (cube rnd) b in
  let b := Nat.iter 5 (cylinder rnd orbitMin orbitMax) b in
  let b := Nat.iter 5 (cylinder rnd (Math_ceil (Fin 84)) (Math_floor (Fin (-84)))) b in
  let b := Nat.iter 5 (cylinder rnd orbitMin orbitMax) b in
  spaceship rnd followCamera b.

(** The constructor, up to the first display: the group of the compound, the
    scene and the camera that follows the ship are the first three objects.
    Until [setPrimary] and [setSecondary] are called the two fields of the
    compound are undefined and are not read; the group stands for them. *)
Definition constructor (rnd : nat -> R) : t :=
  let group := 0%nat in
  let scene := 1%nat in
  let followCamera := 2%nat in
  let m := mk (fun _ => Object3D.fresh) scene
              (CompoundObject.mk group group group None) [] [] [] in
  built (buildScene rnd followCamera (mkBuild m 3%nat 0%nat)).

(** The children of the scene. *)
Definition in_scene (m : t) : list ObjId := Object3D.children (heap m (scene m)).

(** The distance [#checkCollision] computes between two positions. *)
Definition distance (p1 p2 : Vector3.t) : number :=
  let x := Math_abs (Vector3.x p1 - Vector3.x p2)%js in
  let y := Math_abs (Vector3.y p1 - Vector3.y p2)%js in
  let z := Math_abs (Vector3.z p1 - Vector3.z p2)%js in
  if (x !== Fin 0)%js || (y !== Fin 0)%js || (z !== Fin 0)%js
  then Math_sqrt (x * x + y * y + z * z)%js
  else Fin 0.

(** The bound [#checkCollision] compares the distance of the debris [o]
    with. *)
Definition threshold (m : t) (o : ObjId) : number :=
  (to_number (Object3D.raioCol (heap m o))
   + to_number (CompoundObject.raioCol (compound m)))%js.

(** The distance [#checkCollision] finds the debris [o] at. *)
Definition distance_of (m : t) (o : ObjId) : number :=
  distance (Object3D.position (heap m o))
           (Object3D.position (heap m (CompoundObject.primary (compound m)))).

(** The test of the [if] of [#checkCollision], for the debris [o]. *)
Definition collides (m : t) (o : ObjId) : bool :=
  (distance_of m o <=? threshold m o)%js.

(** The body of the loop of [#checkCollision], at index [i]. *)
Definition checkCollision_body (i : nat) (m : t) : t :=
  match nth_error (litter m) i with
  | None => m
  | Some o =>
      let m := emit (Examined i o (distance_of m o) (threshold m o)) m in
      if collides m o then
        let m := emit (SceneRemove o) m in
        let m := set_heap (Object3D_remove (scene m) o (heap m)) m in
        set_litter (snd (Array.slice (litter m) i 1)) m
      else m
  end.

(** [for (var i = 0; i < this.#litter.length; i++)], from index [i] on. *)
Equations? checkCollision_from (i : nat) (m : t) : t
    by wf (length (litter m) - i)%nat lt :=
  checkCollision_from i m with lt_dec i (length (litter m)) := {
    | left _ => checkCollision_from (S i) (checkCollision_body i m)
    | right _ => m }.
Proof.
  assert (E : litter (checkCollision_body i m) = litter m).
  { unfold checkCollision_body.
    destruct (nth_error (litter m) i); [| reflexivity].
    destruct (collides _ _); reflexivity. }
  rewrite E. lia.
Qed.

(** [#checkCollision] *)
Definition checkCollision (m : t) : t := checkCollision_from 0 m.

(** [#display]: the renderer draws the scene. *)
Definition display (m : t) : t := emit Rendered m.

(** [#update], the clock having given [delta]. *)
Definition update (controller : KeyController) (delta : number) (m : t) : t :=
  let m := checkCollision m in
  let m := emit KeysProcessed m in
  let '(h, objects, c) :=
    controller (heap m) (sceneObjects m) (compound m) delta
      (_EARTH_RADIUS * Fin (12 / 10))%js in
  let m := set_compound c (set_sceneObjects objects (set_heap h m)) in
  (* [lookAt] turns the primary and leaves every position as it is *)
  emit LookedAt m.

(** One call of [animate]: the update, then the display. *)
Definition animate (controller : KeyController) (delta : number) (m : t) : t :=
  let m := update controller delta m in
  display m.

(** The frames the browser schedules, with the time steps of the clock. *)
Fixpoint frames (controller : KeyController) (deltas : list number) (m : t) : t :=
  match deltas with
  | [] => m
  | delta :: deltas => frames controller deltas (animate controller delta m)
  end.

End Main.

(** ** The statements of the specification *)

(** The position [p] is a point of real coordinates on the sphere of radius
    [r] around the origin. *)
Definition on_sphere (r : R) (p : Vector3.t) : Prop :=
  exists xv yv zv : R,
    p = Vector3.mk (Fin xv) (Fin yv) (Fin zv) /\
    xv * xv + yv * yv + zv * zv = r * r.

(** The closed form of the move on the sphere, as the specification words
    it. *)
Module MoveSpec.

Definition MOVE_STEP : number := Fin 3.

Definition clamp (v lo hi : number) : number :=
  if (v <? lo)%js then lo else if (hi <? v)%js then hi else v.

Definition theta (p : Vector3.t) : number :=
  Math_atan2 (Vector3.x p) (Vector3.z p).

Definition phi (p : Vector3.t) (radius : number) : number :=
  Math_acos (clamp (Vector3.y p / radius)%js (Fin (-1)) (Fin 1)).

Definition offset_phi (direction : Direction) (delta phi : number) : number :=
  match direction with
  | UP => (phi + MOVE_STEP * delta)%js
  | DOWN => (phi - MOVE_STEP * delta)%js
  | _ => phi
  end.

Definition offset_theta (direction : Direction) (delta theta : number) : number :=
  match direction with
  | LEFT => (theta + MOVE_STEP * delta)%js
  | RIGHT => (theta - MOVE_STEP * delta)%js
  | _ => theta
  end.

Definition move (direction : Direction) (delta radius : number) (p : Vector3.t)
    : Vector3.t :=
  let theta := offset_theta direction delta (theta p) in
  let phi := offset_phi direction delta (phi p radius) in
  Vector3.mk (radius * Math_sin phi * Math_sin theta)%js
             (radius * Math_cos phi)%js
             (radius * Math_sin phi * Math_cos theta)%js.

End MoveSpec.

(** The Euclidean distance of two points of real coordinates. *)
Definition euclid (x1 y1 z1 x2 y2 z2 : R) : R :=
  sqrt ((x1 - x2) * (x1 - x2) + (y1 - y2) * (y1 - y2) + (z1 - z2) * (z1 - z2)).

(** The steps of the collision check for the debris [o] at index [i], as the
    state [m] at the start of the check determines them. *)
Definition scan_events (m : Main.t) (i : nat) (o : ObjId) : list Event :=
  Examined i o (Main.distance_of m o) (Main.threshold m o)
  :: (if Main.collides m o then [SceneRemove o] else []).

Fixpoint scan_from (m : Main.t) (i : nat) (l : list ObjId) : list Event :=
  match l with
  | [] => []
  | o :: l => scan_events m i o ++ scan_from m (S i) l
  end.

(** The steps of one scan of the whole litter. *)
Definition scan (m : Main.t) : list Event := scan_from m 0 (Main.litter m).

(** The debris a log examines, in order, each with the bound its distance
    was compared with. *)
Fixpoint examined (l : list Event) : list (ObjId * number) :=
  match l with
  | [] => []
  | Examined _ o _ t :: l => (o, t) :: examined l
  | _ :: l => examined l
  end.

(** The loop of the collision check, index by index. *)
Definition bodies (indices : list nat) (m : Main.t) : Main.t :=
  fold_left (fun m i => Main.checkCollision_body i m) indices m.

(** What a run of the check keeps: the scene, the compound, the litter, and
    the position and the collision radius of every object. *)
Definition same_objects (m m' : Main.t) : Prop :=
  Main.scene m' = Main.scene m /\
  Main.compound m' = Main.compound m /\
  Main.litter m' = Main.litter m /\
  Main.sceneObjects m' = Main.sceneObjects m /\
  forall o, Object3D.position (Main.heap m' o) = Object3D.position (Main.heap m o) /\
            Object3D.raioCol (Main.heap m' o) = Object3D.raioCol (Main.heap m o).

(** ** States the statements are tried on *)

Module Examples.

(** The ship on the equator of the orbit, at (84, 0, 0). *)
Definition ship : CompoundObject.t :=
  CompoundObject.mk 25 30 0 (Some (Fin (552 / 100))).

Definition ship_at (p : Vector3.t) : Heap :=
  modify (fun _ => Object3D.fresh) 25 (Object3D.set_position (fun _ => p)).

Definition equator : Heap :=
  ship_at (Vector3.mk (Fin 84) (Fin 0) (Fin 0)).

(** The ship above the orbit, at (0, 100, 0). *)
Definition above : Heap :=
  ship_at (Vector3.mk (Fin 0) (Fin 100) (Fin 0)).

(** The scene the constructor builds when every call of [Math.random] gives
    one half: the twenty debris and the ship are at (0, 0, 84). *)
Definition half : nat -> R := fun _ => 1 / 2.

Definition scene_half : Main.t := Main.constructor half.

End Examples.

(** Further states. *)
Module MoreExamples.

(** The ship as [#buildScene] places it when x = y = 84 are drawn: the
    square root that gives z is taken of a negative number. *)
Definition lost : Heap :=
  Examples.ship_at (Vector3.mk (Fin 84) (Fin 84) NaN).

(** A construction under way, before any object or draw. *)
Definition start : Main.Build :=
  Main.mkBuild
    (Main.mk (fun _ => Object3D.fresh) 1 (CompoundObject.mk 0 0 0 None) [] [] [])
    3 0.

(** The scene the constructor builds when every call of [Math.random] gives
    0: x = y = 84 for the twenty debris and for the ship, and z is NaN. *)
Definition scene_zero : Main.t := Main.constructor (fun _ => 0).

End MoreExamples.

(** ** The collision check on double-precision numbers

    The numbers of JavaScript are the binary64 numbers of IEEE 754, which
    the primitive floats of the kernel are: here [#checkCollision] runs with
    their rounding, overflow, NaN and signed zero.  Of an object the check
    reads the position and the collision radius; the parent that [remove]
    resets is left out. *)
Module Double.
Import PrimFloat.

Record Vector3 : Type := mkVector3 { x : float; y : float; z : float }.

Record Object3D : Type := mkObject3D { position : Vector3; raioCol : option float }.

(** The objects by reference, the children of the scene, the litter, the
    primary of the compound and the [raioCol] of the compound. *)
Record t : Type := mk {
  objects : ObjId -> Object3D;
  children : list ObjId;
  litter : list ObjId;
  primary : ObjId;
  compound_raioCol : option float
}.

(** An absent property is [undefined], which is NaN in a sum. *)
Definition to_number (v : option float) : float :=
  match v with
  | Some f => f
  | None => nan
  end.

(** The distance [#checkCollision] computes between two positions. *)
Definition distance (p1 p2 : Vector3) : float :=
  let x := abs (x p1 - x p2)%float in
  let y := abs (y p1 - y p2)%float in
  let z := abs (z p1 - z p2)%float in
  if negb (x =? 0)%float || negb (y =? 0)%float || negb (z =? 0)%float
  then sqrt (x * x + y * y + z * z)%float
  else 0%float.

Definition threshold (m : t) (o : ObjId) : float :=
  (to_number (raioCol (objects m o)) + to_number (compound_raioCol m))%float.

(** The test of the [if] of [#checkCollision], for the debris [o]. *)
Definition collides (m : t) (o : ObjId) : bool :=
  (distance (position (objects m o)) (position (objects m (primary m)))
   <=? threshold m o)%float.

(** [this.#scene.remove(object)], on the children of the scene. *)
Definition remove (l : list ObjId) (o : ObjId) : list ObjId :=
  match Array.indexOf l o with
  | Some index => snd (Array.splice l index 1)
  | None => l
  end.

(** The body of the loop of [#checkCollision], at index [i]. *)
Definition checkCollision_body (i : nat) (m : t) : t :=
  match nth_error (litter m) i with
  | None => m
  | Some o =>
      if collides m o then
        mk (objects m) (remove (children m) o)
           (snd (Array.slice (litter m) i 1)) (primary m) (compound_raioCol m)
      else m
  end.

(** [for (var i = 0; i < this.#litter.length; i++)], from index [i] on, for
    the number of turns given. *)
Fixpoint checkCollision_from (turns i : nat) (m : t) : t :=
  match turns with
  | O => m
  | S turns =>
      if (i <? length (litter m))%nat
      then checkCollision_from turns (S i) (checkCollision_body i m)
      else m
  end.

(** [#checkCollision]: the loop ends within as many turns as the litter has
    debris. *)
Definition checkCollision (m : t) : t :=
  checkCollision_from (length (litter m)) 0 m.

(** The value of a finite double, as a fraction. *)
Definition exact (f : float) : Z * Z :=
  match FloatOps.Prim2SF f with
  | SpecFloat.S754_finite s m e =>
      (((if s then Z.neg m else Z.pos m) * 2 ^ Z.max e 0)%Z, (2 ^ Z.max (- e) 0)%Z)
  | _ => (0%Z, 1%Z)
  end.

Definition real (f : float) : R := IZR (fst (exact f)) / IZR (snd (exact f)).

(** *** Two scenes on the orbit

    A cube as [#buildScene] makes it, from integer x and y, and the primary
    next to the orbit at about the bound of the test from it. *)

(** [_EARTH_RADIUS * 1.2], which is 84, and 5.52 as doubles. *)
Definition orbit : float := (70 * 0x1.3333333333333p+0)%float.
Definition ship_raioCol : float := 0x1.6147ae147ae14p+2%float.

(** [Math.sqrt((_EARTH_RADIUS*1.2)**2 - x**2 - y**2)] *)
Definition orbit_z (x y : float) : float :=
  sqrt (orbit * orbit - x * x - y * y)%float.

(** A cube of size 3 at the integers [x] and [y], with
    [(Math.sqrt(3)/2)*size] for collision radius. *)
Definition cube (x y : float) : Object3D :=
  mkObject3D (mkVector3 x y (orbit_z x y)) (Some (sqrt 3 / 2 * 3)%float).

(** The primary at (3.933304171332872, 35.769327880881704,
    75.90180696956926). *)
Definition ship_within : Object3D :=
  mkObject3D
    (mkVector3 0x1.f77682d68c2b2p+1 0x1.1e279560424dap+5 0x1.2f9b7349466b6p+6)
    None.

(** The primary at (17.572166575838665, -57.242354180459834,
    58.91122006638269). *)
Definition ship_beyond : Object3D :=
  mkObject3D
    (mkVector3 0x1.19279823b1764p+4 (-0x1.c9f0576378fdbp+5) 0x1.d74a2dbf0494bp+5)
    None.

Definition origin : Object3D := mkObject3D (mkVector3 0 0 0) None.

(** The earth (3), one cube (4), the group (0) and the primary (25): the
    cube at x = 12, y = 35 in [within], at x = 10, y = -60 in [beyond]. *)
Definition within : t :=
  mk (fun o => if Nat.eqb o 4 then cube 12 35
               else if Nat.eqb o 25 then ship_within else origin)
     [3; 4; 0]%nat [4]%nat 25 (Some ship_raioCol).

Definition beyond : t :=
  mk (fun o => if Nat.eqb o 4 then cube 10 (-60)
               else if Nat.eqb o 25 then ship_beyond else origin)
     [3; 4; 0]%nat [4]%nat 25 (Some ship_raioCol).

(** The exact distance of a debris to the primary, and the exact sum of the
    two collision radii. *)
Definition exact_distance (m : t) (o : ObjId) : R :=
  let p1 := position (objects m o) in
  let p2 := position (objects m (primary m)) in
  euclid (real (x p1)) (real (y p1)) (real (z p1))
         (real (x p2)) (real (y p2)) (real (z p2)).

Definition exact_threshold (m : t) (o : ObjId) : R :=
  real (to_number (raioCol (objects m o))) + real (to_number (compound_raioCol m)).

End Double.

(** * Proofs *)

(** ** Numbers *)

Lemma Rzero_0 : Rzero 0 = true.
Proof. unfold Rzero. destruct (Req_dec_T 0 0); [reflexivity | contradiction]. Qed.

Lemma Rzero_neq (r : R) : r <> 0 -> Rzero r = false.
Proof. intros H. unfold Rzero. destruct (Req_dec_T r 0); [contradiction | reflexivity]. Qed.

Lemma Rneg_pos (r : R) : 0 <= r -> Rneg r = false.
Proof. intros H. unfold Rneg. destruct (Rlt_dec r 0); [lra | reflexivity]. Qed.

Lemma Rneg_neg (r : R) : r < 0 -> Rneg r = true.
Proof. intros H. unfold Rneg. destruct (Rlt_dec r 0); [reflexivity | lra]. Qed.

Lemma mul_comm (a b : number) : (a * b)%js = (b * a)%js.
Proof.
  destruct a as [|s|u], b as [|t|v]; simpl; try reflexivity.
  - now rewrite xorb_comm.
  - now rewrite Rmult_comm.
Qed.

Lemma div_Fin (u v : R) : v <> 0 -> (Fin u / Fin v)%js = Fin (u / v).
Proof. intros H. simpl. now rewrite (Rzero_neq v H). Qed.

Lemma clamp_range (v : R) : -1 <= Rmax (-1) (Rmin 1 v) <= 1.
Proof.
  split.
  - apply Rmax_l.
  - apply Rmax_lub; [lra | apply Rmin_l].
Qed.

Lemma Math_acos_Fin (t : R) : -1 <= t <= 1 -> Math_acos (Fin t) = Fin (acos t).
Proof.
  intros [Hl Hu]. simpl.
  destruct (Rle_dec (-1) t); [| contradiction].
  destruct (Rle_dec t 1); [reflexivity | contradiction].
Qed.

Lemma number_le_Fin (u v : R) : (Fin u <=? Fin v)%js = true <-> u <= v.
Proof.
  simpl. destruct (Rle_dec u v); split; intros; try assumption; try reflexivity.
  - discriminate.
  - contradiction.
Qed.

(** The nested [Math.max] and [Math.min] are the clamp to [-1, 1], on every
    number. *)
Lemma max_min_clamp (v : number) :
  Math_max (Fin (-1)) (Math_min (Fin 1) v) = MoveSpec.clamp v (Fin (-1)) (Fin 1).
Proof.
  unfold MoveSpec.clamp. destruct v as [|[|]|v]; simpl; try reflexivity.
  - f_equal. apply Rmax_right. lra.
  - destruct (Rlt_dec v (-1)) as [H|H].
    + f_equal. rewrite Rmin_right by lra. apply Rmax_left. lra.
    + destruct (Rlt_dec 1 v) as [H'|H'].
      * f_equal. rewrite Rmin_left by lra. apply Rmax_right. lra.
      * f_equal. rewrite Rmin_right by lra. apply Rmax_right. lra.
Qed.

(** ** The heap *)

Lemma modify_same (h : Heap) (o : ObjId) (f : Object3D.t -> Object3D.t) :
  modify h o f o = f (h o).
Proof. unfold modify. now rewrite Nat.eqb_refl. Qed.

Lemma modify_other (h : Heap) (o o' : ObjId) (f : Object3D.t -> Object3D.t) :
  o' <> o -> modify h o f o' = h o'.
Proof.
  intros H. unfold modify. destruct (Nat.eqb_spec o' o); [contradiction | reflexivity].
Qed.

(** A change of the parent or of the children of an object leaves every
    position and every collision radius as it is. *)
Lemma modify_keeps (h : Heap) (o o' : ObjId) (f : Object3D.t -> Object3D.t) :
  (forall ob, Object3D.position (f ob) = Object3D.position ob) ->
  (forall ob, Object3D.raioCol (f ob) = Object3D.raioCol ob) ->
  Object3D.position (modify h o f o') = Object3D.position (h o') /\
  Object3D.raioCol (modify h o f o') = Object3D.raioCol (h o').
Proof.
  intros Hp Hr. unfold modify. destruct (Nat.eqb o' o); auto.
Qed.

(** ** The move on the sphere *)

Section Move.
Import CompoundObject.

Variable c : CompoundObject.t.

Lemma position_applyRotation (radius theta phi : number) (h : Heap) :
  Object3D.position (applyRotation c radius theta phi h (primary c)) =
    Vector3.mk (Math_sin phi * radius * Math_sin theta)%js
               (Math_cos phi * radius)%js
               (Math_sin phi * radius * Math_cos theta)%js.
Proof.
  unfold applyRotation. rewrite !modify_same. reflexivity.
Qed.

Lemma applyRotation_other (radius theta phi : number) (h : Heap) (o : ObjId) :
  o <> primary c -> applyRotation c radius theta phi h o = h o.
Proof.
  intros H. unfold applyRotation. now rewrite !modify_other.
Qed.

Lemma phi_Fin (p : Vector3.t) (yv r : R) :
  Vector3.y p = Fin yv -> r <> 0 ->
  phi p (Fin r) = Fin (acos (Rmax (-1) (Rmin 1 (yv / r)))).
Proof.
  intros Hy H. unfold phi, clamped. rewrite Hy, (div_Fin _ _ H). simpl Math_min.
  simpl Math_max. apply Math_acos_Fin, clamp_range.
Qed.

End Move.

(** C4: [CompoundObject.move] sets the position of the primary to the closed
    form of the specification: theta = atan2(x, z) and
    phi = acos(clamp(y / radius, -1, 1)) of the current position, phi offset
    by plus or minus MOVE_STEP * delta for UP and DOWN, theta for LEFT and
    RIGHT, and x = radius sin(phi) sin(theta), z = radius sin(phi) cos(theta),
    y = radius cos(phi); this holds on every number, and no other object is
    changed. *)
Theorem move_closed_form (c : CompoundObject.t) (direction : Direction)
    (delta radius : number) (h : Heap) :
  Object3D.position (CompoundObject.move c direction delta radius h
                       (CompoundObject.primary c)) =
    MoveSpec.move direction delta radius
      (Object3D.position (h (CompoundObject.primary c))) /\
  forall o, o <> CompoundObject.primary c ->
    CompoundObject.move c direction delta radius h o = h o.
Proof.
  split.
  - unfold CompoundObject.move, MoveSpec.move, MoveSpec.phi, MoveSpec.theta.
    rewrite <- max_min_clamp.
    fold (CompoundObject.clamped (Object3D.position (h (CompoundObject.primary c))) radius).
    fold (CompoundObject.phi (Object3D.position (h (CompoundObject.primary c))) radius).
    fold (CompoundObject.theta (Object3D.position (h (CompoundObject.primary c)))).
    destruct direction; rewrite position_applyRotation; simpl;
      rewrite !(mul_comm radius); reflexivity.
  - intros o Ho. unfold CompoundObject.move.
    destruct direction; now apply applyRotation_other.
Qed.

Lemma phi_finite (p : Vector3.t) (yv r : R) :
  Vector3.y p = Fin yv -> r <> 0 \/ yv <> 0 ->
  exists a : R, CompoundObject.phi p (Fin r) = Fin a.
Proof.
  intros Hy [H|H].
  - eexists. apply phi_Fin; eassumption.
  - destruct (Req_dec_T r 0) as [E|E].
    + subst r. unfold CompoundObject.phi, CompoundObject.clamped.
      rewrite Hy. simpl. rewrite Rzero_0, (Rzero_neq _ H).
      destruct (Rneg yv); simpl.
      * eexists. apply Math_acos_Fin. lra.
      * eexists. apply Math_acos_Fin. split; [apply Rmax_l | apply Rmax_lub; lra].
    + eexists. apply phi_Fin; eassumption.
Qed.

Lemma sphere_identity (r s c s' c' : R) :
  s * s + c * c = 1 -> s' * s' + c' * c' = 1 ->
  (s * r * s') * (s * r * s') + (c * r) * (c * r) + (s * r * c') * (s * r * c')
  = r * r.
Proof.
  intros H H'.
  transitivity (r * r * (s * s * (s' * s' + c' * c') + c * c)); [ring |].
  rewrite H', Rmult_1_r, H. ring.
Qed.

Lemma sin_cos_1 (a : R) : sin a * sin a + cos a * cos a = 1.
Proof. generalize (sin2_cos2 a). unfold Rsqr. lra. Qed.

Lemma phi_of_number (p : Vector3.t) (r : R) :
  r <> 0 -> Vector3.y p <> NaN ->
  exists t a : R,
    CompoundObject.clamped p (Fin r) = Fin t /\ -1 <= t <= 1 /\
    CompoundObject.phi p (Fin r) = Fin a /\ a = acos t /\ 0 <= a <= PI.
Proof.
  intros Hr Hy.
  assert (Ht : exists t, CompoundObject.clamped p (Fin r) = Fin t /\ -1 <= t <= 1).
  { unfold CompoundObject.clamped. destruct (Vector3.y p) as [|s|yv].
    - contradiction.
    - simpl. destruct (xorb s (Rneg r)); simpl.
      + exists (-1). split; [reflexivity | lra].
      + exists (Rmax (-1) 1). split; [reflexivity |].
        split; [apply Rmax_l | apply Rmax_lub; lra].
    - rewrite (div_Fin _ _ Hr). simpl. eexists. split; [reflexivity |].
      apply clamp_range. }
  destruct Ht as (t & Et & Ht).
  exists t, (acos t). unfold CompoundObject.phi. rewrite Et.
  repeat split; try apply Ht; try apply acos_bound.
  now apply Math_acos_Fin.
Qed.

(** C10, amended: the argument [move] gives to the inverse cosine is clamped
    to [-1, 1]: for every position of the primary whose y is not NaN, of
    real y (even larger than the radius) or of infinite y, and every nonzero
    radius that is not NaN, real or (with a real y) infinite, that argument
    is a real t of [-1, 1], and phi is the real acos t, a value of
    [0, PI]. *)
Theorem phi_well_defined (xv zv : number) (r : R) :
  r <> 0 ->
  (forall yv : R,
     exists t a : R,
       CompoundObject.clamped (Vector3.mk xv (Fin yv) zv) (Fin r) = Fin t /\
       -1 <= t <= 1 /\
       CompoundObject.phi (Vector3.mk xv (Fin yv) zv) (Fin r) = Fin a /\
       a = acos t /\ 0 <= a <= PI) /\
  (forall s : bool,
     exists t a : R,
       CompoundObject.clamped (Vector3.mk xv (Inf s) zv) (Fin r) = Fin t /\
       -1 <= t <= 1 /\
       CompoundObject.phi (Vector3.mk xv (Inf s) zv) (Fin r) = Fin a /\
       a = acos t /\ 0 <= a <= PI) /\
  (forall (yv : R) (s : bool),
     exists t a : R,
       CompoundObject.clamped (Vector3.mk xv (Fin yv) zv) (Inf s) = Fin t /\
       -1 <= t <= 1 /\
       CompoundObject.phi (Vector3.mk xv (Fin yv) zv) (Inf s) = Fin a /\
       a = acos t /\ 0 <= a <= PI).
Proof.
  intros Hr. split; [| split].
  - intros v. apply phi_of_number; simpl; congruence.
  - intros v. apply phi_of_number; simpl; congruence.
  - intros yv s.
    assert (E : CompoundObject.clamped (Vector3.mk xv (Fin yv) zv) (Inf s)
                = Fin (Rmax (-1) (Rmin 1 0))) by reflexivity.
    pose proof (clamp_range 0) as Ht.
    exists (Rmax (-1) (Rmin 1 0)), (acos (Rmax (-1) (Rmin 1 0))).
    unfold CompoundObject.phi. rewrite E, (Math_acos_Fin _ Ht).
    repeat split; try apply Ht; apply acos_bound.
Qed.

Lemma phi_well_defined_witness :
  (forall yv : R,
     exists t a : R,
       CompoundObject.clamped (Vector3.mk (Fin 0) (Fin yv) (Fin 0)) (Fin 84) = Fin t /\
       -1 <= t <= 1 /\
       CompoundObject.phi (Vector3.mk (Fin 0) (Fin yv) (Fin 0)) (Fin 84) = Fin a /\
       a = acos t /\ 0 <= a <= PI) /\
  (forall s : bool,
     exists t a : R,
       CompoundObject.clamped (Vector3.mk (Fin 0) (Inf s) (Fin 0)) (Fin 84) = Fin t /\
       -1 <= t <= 1 /\
       CompoundObject.phi (Vector3.mk (Fin 0) (Inf s) (Fin 0)) (Fin 84) = Fin a /\
       a = acos t /\ 0 <= a <= PI) /\
  (forall (yv : R) (s : bool),
     exists t a : R,
       CompoundObject.clamped (Vector3.mk (Fin 0) (Fin yv) (Fin 0)) (Inf s) = Fin t /\
       -1 <= t <= 1 /\
       CompoundObject.phi (Vector3.mk (Fin 0) (Fin yv) (Fin 0)) (Inf s) = Fin a /\
       a = acos t /\ 0 <= a <= PI).
Proof.
  apply (phi_well_defined (Fin 0) (Fin 0) 84). lra.
Defined.

(** C10, as stated, fails when the y of the primary is NaN: at (84, NaN, 0)
    with the radius 84, y / radius is NaN, which [Math.min] and [Math.max]
    keep, and phi is NaN, not a value of [0, PI].  It is the same with a NaN
    radius, and with an infinite y and an infinite radius, whose quotient is
    NaN. *)
Lemma phi_of_NaN :
  Fin 84 <> Fin 0 /\
  CompoundObject.clamped (Vector3.mk (Fin 84) NaN (Fin 0)) (Fin 84) = NaN /\
  CompoundObject.phi (Vector3.mk (Fin 84) NaN (Fin 0)) (Fin 84) = NaN /\
  ~ (exists a : R,
       CompoundObject.phi (Vector3.mk (Fin 84) NaN (Fin 0)) (Fin 84) = Fin a /\
       0 <= a <= PI) /\
  CompoundObject.phi (Vector3.mk (Fin 84) (Fin 0) (Fin 0)) NaN = NaN /\
  CompoundObject.phi (Vector3.mk (Fin 84) (Inf false) (Fin 0)) (Inf false) = NaN.
Proof.
  split; [intros [= H]; lra |].
  split; [reflexivity |]. split; [reflexivity |].
  split; [| split; reflexivity].
  intros (a & H & _). discriminate.
Qed.

(** C1, amended: for every direction, every real delta and every real world
    radius r, when the position of the primary has real coordinates and r is
    not zero (or the current y is not zero), the position after
    [CompoundObject.move] has real coordinates with x^2 + y^2 + z^2 = r^2,
    whatever the previous position was. *)
Theorem move_on_sphere (c : CompoundObject.t) (direction : Direction)
    (delta r xv yv zv : R) (h : Heap) :
  Object3D.position (h (CompoundObject.primary c))
    = Vector3.mk (Fin xv) (Fin yv) (Fin zv) ->
  r <> 0 \/ yv <> 0 ->
  on_sphere r
    (Object3D.position
       (CompoundObject.move c direction (Fin delta) (Fin r) h
          (CompoundObject.primary c))).
Proof.
  intros Hp Hr.
  destruct (phi_finite (Object3D.position (h (CompoundObject.primary c))) yv r)
    as [a Ha]; [now rewrite Hp | assumption |].
  unfold CompoundObject.move. rewrite Ha.
  unfold CompoundObject.theta. rewrite Hp. simpl Math_atan2.
  unfold on_sphere.
  destruct direction; rewrite position_applyRotation; simpl;
    (do 3 eexists; split; [reflexivity | apply sphere_identity; apply sin_cos_1]).
Qed.

Lemma move_on_sphere_witness :
  on_sphere 84
    (Object3D.position
       (CompoundObject.move Examples.ship UP (Fin 1) (Fin 84) Examples.above
          (CompoundObject.primary Examples.ship))).
Proof.
  apply (move_on_sphere Examples.ship UP 1 84 0 100 0 Examples.above).
  - reflexivity.
  - left. lra.
Defined.

(** C1, as stated, fails for the world radius 0: from (84, 0, 0) the
    quotient y / radius is 0 / 0, which is NaN, and so are the three
    coordinates after the move. *)
Lemma move_zero_radius_off_sphere :
  Object3D.position
    (CompoundObject.move Examples.ship UP (Fin 1) (Fin 0) Examples.equator
       (CompoundObject.primary Examples.ship))
  = Vector3.mk NaN NaN NaN /\
  ~ on_sphere 0
      (Object3D.position
         (CompoundObject.move Examples.ship UP (Fin 1) (Fin 0) Examples.equator
            (CompoundObject.primary Examples.ship))).
Proof.
  assert (E : Object3D.position
    (CompoundObject.move Examples.ship UP (Fin 1) (Fin 0) Examples.equator
       (CompoundObject.primary Examples.ship)) = Vector3.mk NaN NaN NaN).
  { unfold CompoundObject.move. rewrite position_applyRotation.
    unfold CompoundObject.phi, CompoundObject.clamped. simpl.
    rewrite Rzero_0. reflexivity. }
  split; [exact E |].
  rewrite E. intros (xv & yv & zv & H & _). discriminate.
Qed.

(** ** The angle of a point and the point of an angle *)

Lemma sqrt_1_sqr_pos (t : R) : 0 < sqrt (1 + t²).
Proof. apply sqrt_lt_R0. generalize (Rle_0_sqr t). lra. Qed.

Lemma sqrt_sum_sqr (a b : R) :
  b <> 0 -> sqrt (a * a + b * b) = Rabs b * sqrt (1 + (a / b)²).
Proof.
  intros Hb.
  replace (a * a + b * b) with ((b * b) * (1 + (a / b)²))
    by (unfold Rsqr; field; assumption).
  rewrite sqrt_mult.
  - f_equal. fold (Rsqr b). apply sqrt_Rsqr_abs.
  - apply Rle_0_sqr.
  - generalize (Rle_0_sqr (a / b)). lra.
Qed.

(** A point (b, a) of the plane, at the distance rho of the origin, is at
    rho cos and rho sin of its angle. *)
Lemma Ratan2_polar (a b : R) :
  sqrt (a * a + b * b) * sin (Ratan2 a b) = a /\
  sqrt (a * a + b * b) * cos (Ratan2 a b) = b.
Proof.
  unfold Ratan2.
  destruct (Rlt_dec 0 b) as [Hb|Hb].
  { rewrite sqrt_sum_sqr by lra. rewrite Rabs_right by lra.
    rewrite sin_atan, cos_atan.
    generalize (sqrt_1_sqr_pos (a / b)). set (s := sqrt (1 + (a / b)²)).
    intros Hs. split; field; lra. }
  destruct (Rlt_dec b 0) as [Hb'|Hb'].
  { rewrite sqrt_sum_sqr by lra. rewrite Rabs_left by lra.
    assert (E : sin (atan (a / b) - PI) = - sin (atan (a / b)) /\
                cos (atan (a / b) - PI) = - cos (atan (a / b)) /\
                sin (atan (a / b) + PI) = - sin (atan (a / b)) /\
                cos (atan (a / b) + PI) = - cos (atan (a / b))).
    { rewrite sin_minus, cos_minus, sin_plus, cos_plus, sin_PI, cos_PI.
      repeat split; ring. }
    destruct E as (E1 & E2 & E3 & E4).
    destruct (Rlt_dec a 0); [rewrite E1, E2 | rewrite E3, E4];
      rewrite sin_atan, cos_atan;
      generalize (sqrt_1_sqr_pos (a / b)); set (s := sqrt (1 + (a / b)²));
      intros Hs; split; field; lra. }
  assert (b = 0) by lra. subst b.
  replace (a * a + 0 * 0) with (a * a) by ring. fold (Rsqr a).
  rewrite sqrt_Rsqr_abs.
  destruct (Rlt_dec 0 a) as [Ha|Ha].
  { rewrite sin_PI2, cos_PI2, Rabs_right by lra. lra. }
  destruct (Rlt_dec a 0) as [Ha'|Ha'].
  { rewrite sin_neg, cos_neg, sin_PI2, cos_PI2, Rabs_left by lra. lra. }
  assert (a = 0) by lra. subst a.
  rewrite Rabs_R0, sin_0, cos_0. lra.
Qed.

(** The angle of the point that the angle theta + s gives, less s, gives the
    point of theta again. *)
Lemma turn_back (rho theta s : R) :
  0 <= rho ->
  let x1 := rho * sin (theta + s) in
  let z1 := rho * cos (theta + s) in
  rho * sin (Ratan2 x1 z1 - s) = rho * sin theta /\
  rho * cos (Ratan2 x1 z1 - s) = rho * cos theta.
Proof.
  intros Hrho x1 z1.
  destruct (Ratan2_polar x1 z1) as [Hs Hc].
  assert (E : sqrt (x1 * x1 + z1 * z1) = rho).
  { replace (x1 * x1 + z1 * z1)
      with (rho * rho * (sin (theta + s) * sin (theta + s)
                         + cos (theta + s) * cos (theta + s)))
      by (unfold x1, z1; ring).
    rewrite sin_cos_1, Rmult_1_r. fold (Rsqr rho). now apply sqrt_Rsqr. }
  rewrite E in Hs, Hc.
  assert (Es : sin theta = sin (theta + s) * cos s - cos (theta + s) * sin s)
    by (rewrite <- sin_minus; f_equal; ring).
  assert (Ec : cos theta = cos (theta + s) * cos s + sin (theta + s) * sin s)
    by (rewrite <- cos_minus; f_equal; ring).
  rewrite sin_minus, cos_minus, Es, Ec.
  split.
  - transitivity ((rho * sin (Ratan2 x1 z1)) * cos s - (rho * cos (Ratan2 x1 z1)) * sin s);
      [ring |]. rewrite Hs, Hc. unfold x1, z1. ring.
  - transitivity ((rho * cos (Ratan2 x1 z1)) * cos s + (rho * sin (Ratan2 x1 z1)) * sin s);
      [ring |]. rewrite Hs, Hc. unfold x1, z1. ring.
Qed.

Lemma clamp_id (t : R) : -1 <= t <= 1 -> Rmax (-1) (Rmin 1 t) = t.
Proof. intros [H1 H2]. rewrite Rmin_right by lra. apply Rmax_right. lra. Qed.

(** A point of the sphere of radius r is the point of its two angles. *)
Lemma sphere_polar (xv yv zv r : R) :
  0 < r -> xv * xv + yv * yv + zv * zv = r * r ->
  let a := acos (Rmax (-1) (Rmin 1 (yv / r))) in
  0 <= a <= PI /\ 0 <= sin a * r /\ cos a * r = yv /\
  sin a * r * sin (Ratan2 xv zv) = xv /\
  sin a * r * cos (Ratan2 xv zv) = zv.
Proof.
  intros Hr Hs a.
  assert (Ht : -1 <= yv / r <= 1).
  { assert (H2 : yv * yv <= r * r) by nra.
    assert (H3 : - r <= yv <= r) by nra.
    split.
    - apply Rmult_le_reg_r with r; [assumption |]. unfold Rdiv.
      rewrite Rmult_assoc, Rinv_l by lra. lra.
    - apply Rmult_le_reg_r with r; [assumption |]. unfold Rdiv.
      rewrite Rmult_assoc, Rinv_l by lra. lra. }
  assert (Ea : a = acos (yv / r)) by (unfold a; now rewrite clamp_id).
  assert (Hc : cos a = yv / r) by (rewrite Ea; now apply cos_acos).
  assert (Hsin : sin a = sqrt (1 - (yv / r)²)) by (rewrite Ea; now apply sin_acos).
  assert (Hrho : sin a * r = sqrt (xv * xv + zv * zv)).
  { rewrite Hsin. rewrite <- (sqrt_square r) at 2 by lra.
    rewrite <- sqrt_mult.
    - f_equal. unfold Rsqr. field_simplify; [| lra]. nra.
    - assert (H2 : (yv / r)² <= 1).
      { rewrite <- Rsqr_1. apply neg_pos_Rsqr_le; lra. }
      lra.
    - nra. }
  split; [unfold a; apply acos_bound |].
  split; [rewrite Hrho; apply sqrt_pos |].
  split; [rewrite Hc; field; lra |].
  rewrite Hrho. apply Ratan2_polar.
Qed.

(** The move by an angle s around the axis, then by - s, in real numbers. *)
Lemma round_trip_real (xv yv zv r s : R) :
  0 < r -> xv * xv + yv * yv + zv * zv = r * r ->
  let a := acos (Rmax (-1) (Rmin 1 (yv / r))) in
  let theta := Ratan2 xv zv in
  let x1 := sin a * r * sin (theta + s) in
  let y1 := cos a * r in
  let z1 := sin a * r * cos (theta + s) in
  let a1 := acos (Rmax (-1) (Rmin 1 (y1 / r))) in
  let theta1 := Ratan2 x1 z1 in
  sin a1 * r * sin (theta1 + - s) = xv /\
  cos a1 * r = yv /\
  sin a1 * r * cos (theta1 + - s) = zv.
Proof.
  intros Hr Hs a theta x1 y1 z1 a1 theta1.
  destruct (sphere_polar xv yv zv r Hr Hs) as (Ha & Hrho & Hy & Hx & Hz).
  fold a in Ha, Hrho, Hy, Hx, Hz. fold theta in Hx, Hz.
  assert (E1 : a1 = a).
  { unfold a1, y1. replace (cos a * r / r) with (cos a) by (field; lra).
    rewrite clamp_id by apply COS_bound. now apply acos_cos. }
  rewrite E1.
  destruct (turn_back (sin a * r) theta s Hrho) as [Ts Tc].
  fold x1 z1 theta1 in Ts, Tc.
  repeat split.
  - fold (theta1 - s). rewrite Ts. exact Hx.
  - exact Hy.
  - fold (theta1 - s). rewrite Tc. exact Hz.
Qed.

Section MoveAround.
Import CompoundObject.

Variables (c : CompoundObject.t) (delta r xv yv zv : R) (h : Heap).
Hypothesis Hr : r <> 0.
Hypothesis Hp :
  Object3D.position (h (primary c)) = Vector3.mk (Fin xv) (Fin yv) (Fin zv).

Let a : R := acos (Rmax (-1) (Rmin 1 (yv / r))).
Let theta : R := Ratan2 xv zv.

Lemma position_move_LEFT :
  Object3D.position (move c LEFT (Fin delta) (Fin r) h (primary c)) =
    Vector3.mk (Fin (sin a * r * sin (theta + 3 * delta))) (Fin (cos a * r))
               (Fin (sin a * r * cos (theta + 3 * delta))).
Proof.
  unfold move. rewrite position_applyRotation.
  rewrite (phi_Fin _ yv r) by (rewrite ?Hp; auto).
  unfold CompoundObject.theta. rewrite Hp. reflexivity.
Qed.

Lemma position_move_RIGHT :
  Object3D.position (move c RIGHT (Fin delta) (Fin r) h (primary c)) =
    Vector3.mk (Fin (sin a * r * sin (theta + - (3 * delta)))) (Fin (cos a * r))
               (Fin (sin a * r * cos (theta + - (3 * delta)))).
Proof.
  unfold move. rewrite position_applyRotation.
  rewrite (phi_Fin _ yv r) by (rewrite ?Hp; auto).
  unfold CompoundObject.theta. rewrite Hp. reflexivity.
Qed.

End MoveAround.

(** C8: for every world radius r > 0 and every position of the primary on
    the sphere of radius r, [move] LEFT then [move] RIGHT by the same delta
    gives the primary its original position back, in real arithmetic, and so
    does RIGHT then LEFT. *)
Theorem left_right_round_trip (c : CompoundObject.t) (delta r xv yv zv : R)
    (h : Heap) :
  0 < r ->
  Object3D.position (h (CompoundObject.primary c))
    = Vector3.mk (Fin xv) (Fin yv) (Fin zv) ->
  xv * xv + yv * yv + zv * zv = r * r ->
  Object3D.position
    (CompoundObject.move c RIGHT (Fin delta) (Fin r)
       (CompoundObject.move c LEFT (Fin delta) (Fin r) h)
       (CompoundObject.primary c))
    = Vector3.mk (Fin xv) (Fin yv) (Fin zv) /\
  Object3D.position
    (CompoundObject.move c LEFT (Fin delta) (Fin r)
       (CompoundObject.move c RIGHT (Fin delta) (Fin r) h)
       (CompoundObject.primary c))
    = Vector3.mk (Fin xv) (Fin yv) (Fin zv).
Proof.
  intros Hr Hp Hs.
  assert (Hr' : r <> 0) by lra.
  split.
  - rewrite (position_move_RIGHT c delta r _ _ _ _ Hr'
               (position_move_LEFT c delta r xv yv zv h Hr' Hp)).
    destruct (round_trip_real xv yv zv r (3 * delta) Hr Hs) as (Ex & Ey & Ez).
    now rewrite Ex, Ey, Ez.
  - rewrite (position_move_LEFT c delta r _ _ _ _ Hr'
               (position_move_RIGHT c delta r xv yv zv h Hr' Hp)).
    destruct (round_trip_real xv yv zv r (- (3 * delta)) Hr Hs) as (Ex & Ey & Ez).
    rewrite Ropp_involutive in Ex, Ez.
    now rewrite Ex, Ey, Ez.
Qed.

Lemma left_right_round_trip_witness :
  Object3D.position
    (CompoundObject.move Examples.ship RIGHT (Fin 1) (Fin 84)
       (CompoundObject.move Examples.ship LEFT (Fin 1) (Fin 84) Examples.equator)
       (CompoundObject.primary Examples.ship))
    = Vector3.mk (Fin 84) (Fin 0) (Fin 0) /\
  Object3D.position
    (CompoundObject.move Examples.ship LEFT (Fin 1) (Fin 84)
       (CompoundObject.move Examples.ship RIGHT (Fin 1) (Fin 84) Examples.equator)
       (CompoundObject.primary Examples.ship))
    = Vector3.mk (Fin 84) (Fin 0) (Fin 0).
Proof.
  apply (left_right_round_trip Examples.ship 1 84 84 0 0 Examples.equator).
  - lra.
  - reflexivity.
  - lra.
Defined.

(** ** The translation of the group *)

(** C6: the earlier [move] translates the position of the group of the
    compound by __MOVE_STEP * delta, with __MOVE_STEP = 20, along one axis:
    UP adds it to y, DOWN subtracts it from y, LEFT subtracts it from x and
    RIGHT adds it to x; the two other coordinates are unchanged, for every
    delta, and on real numbers the step is the real 20 * delta. *)
Theorem group_move_translates (c : CompoundObject.t) (delta : number) (h : Heap) :
  let g := CompoundObject.group c in
  let p := Object3D.position (h g) in
  let step := (Fin 20 * delta)%js in
  Object3D.position (GroupCompoundObject.move c UP delta h g)
    = Vector3.mk (Vector3.x p) (Vector3.y p + step)%js (Vector3.z p) /\
  Object3D.position (GroupCompoundObject.move c DOWN delta h g)
    = Vector3.mk (Vector3.x p) (Vector3.y p - step)%js (Vector3.z p) /\
  Object3D.position (GroupCompoundObject.move c LEFT delta h g)
    = Vector3.mk (Vector3.x p - step)%js (Vector3.y p) (Vector3.z p) /\
  Object3D.position (GroupCompoundObject.move c RIGHT delta h g)
    = Vector3.mk (Vector3.x p + step)%js (Vector3.y p) (Vector3.z p) /\
  forall u d : R,
    (Fin u + Fin 20 * Fin d)%js = Fin (u + 20 * d) /\
    (Fin u - Fin 20 * Fin d)%js = Fin (u - 20 * d).
Proof.
  intros g p step. unfold GroupCompoundObject.move. fold g.
  rewrite !modify_same. repeat split.
Qed.

(** ** Arrays and the scene graph *)

Lemma splice_cons_S (a : ObjId) (l : list ObjId) (n : nat) :
  snd (Array.splice (a :: l) (S n) 1) = a :: snd (Array.splice l n 1).
Proof. reflexivity. Qed.

Lemma splice_cons_0 (a : ObjId) (l : list ObjId) :
  snd (Array.splice (a :: l) 0 1) = l.
Proof. unfold Array.splice. simpl. now destruct l. Qed.

Lemma indexOf_None (l : list ObjId) (o : ObjId) :
  Array.indexOf l o = None <-> ~ In o l.
Proof.
  induction l as [|a l IH]; simpl.
  - tauto.
  - destruct (Nat.eqb_spec a o) as [E|E].
    + split; [discriminate | tauto].
    + destruct (Array.indexOf l o).
      * split; [discriminate |]. intros H. exfalso. apply H. right.
        destruct (proj1 (not_iff_compat IH)) as []; [discriminate |].
        tauto.
      * split; [| reflexivity]. intros _ [H|H]; [contradiction |].
        now apply (proj1 IH).
Qed.

(** [splice] at the index [indexOf] gives takes the first occurrence out. *)
Lemma splice_indexOf (l : list ObjId) (o : ObjId) (index : nat) :
  Array.indexOf l o = Some index ->
  forall a, In a (snd (Array.splice l index 1)) -> In a l.
Proof.
  revert index. induction l as [|b l IH]; intros index Hi a; simpl in Hi;
    [discriminate |].
  destruct (Nat.eqb_spec b o) as [E|E].
  - injection Hi as <-. rewrite splice_cons_0. simpl. tauto.
  - destruct (Array.indexOf l o) as [n|] eqn:En; [| discriminate].
    injection Hi as <-. rewrite splice_cons_S. simpl.
    intros [H|H]; [tauto | right; now apply (IH n)].
Qed.

Lemma splice_indexOf_other (l : list ObjId) (o : ObjId) (index : nat) :
  Array.indexOf l o = Some index ->
  forall a, a <> o -> In a l -> In a (snd (Array.splice l index 1)).
Proof.
  revert index. induction l as [|b l IH]; intros index Hi a Ha; simpl in Hi;
    [discriminate |].
  destruct (Nat.eqb_spec b o) as [E|E].
  - injection Hi as <-. rewrite splice_cons_0. simpl.
    intros [H|H]; [congruence | assumption].
  - destruct (Array.indexOf l o) as [n|] eqn:En; [| discriminate].
    injection Hi as <-. rewrite splice_cons_S. simpl.
    intros [H|H]; [tauto | right; now apply (IH n)].
Qed.

Lemma splice_indexOf_NoDup (l : list ObjId) (o : ObjId) (index : nat) :
  NoDup l -> Array.indexOf l o = Some index ->
  NoDup (snd (Array.splice l index 1)) /\ ~ In o (snd (Array.splice l index 1)).
Proof.
  revert index. induction l as [|b l IH]; intros index Hnd Hi; simpl in Hi;
    [discriminate |].
  inversion Hnd as [|? ? Hb Hl]; subst.
  destruct (Nat.eqb_spec b o) as [E|E].
  - injection Hi as <-. rewrite splice_cons_0. subst b. tauto.
  - destruct (Array.indexOf l o) as [n|] eqn:En; [| discriminate].
    injection Hi as <-. rewrite splice_cons_S.
    destruct (IH n Hl eq_refl) as [H1 H2]. split.
    + constructor; [| assumption]. intros H. apply Hb.
      now apply (splice_indexOf l o n En).
    + simpl. tauto.
Qed.

Section Remove.

Variables (this object : ObjId) (h : Heap).

Lemma remove_keeps (o : ObjId) :
  Object3D.position (Object3D_remove this object h o) = Object3D.position (h o) /\
  Object3D.raioCol (Object3D_remove this object h o) = Object3D.raioCol (h o).
Proof.
  unfold Object3D_remove.
  destruct (Array.indexOf (Object3D.children (h this)) object); [| tauto].
  unfold modify. destruct (Nat.eqb o this), (Nat.eqb o object); simpl; tauto.
Qed.

Lemma remove_children :
  Object3D.children (Object3D_remove this object h this) =
    match Array.indexOf (Object3D.children (h this)) object with
    | Some index => snd (Array.splice (Object3D.children (h this)) index 1)
    | None => Object3D.children (h this)
    end.
Proof.
  unfold Object3D_remove.
  destruct (Array.indexOf (Object3D.children (h this)) object); [| reflexivity].
  rewrite modify_same. unfold modify.
  destruct (Nat.eqb this object); reflexivity.
Qed.

Lemma remove_incl (a : ObjId) :
  In a (Object3D.children (Object3D_remove this object h this)) ->
  In a (Object3D.children (h this)).
Proof.
  rewrite remove_children.
  destruct (Array.indexOf _ _) eqn:E; [| tauto]. now apply splice_indexOf with object.
Qed.

Lemma remove_other (a : ObjId) :
  a <> object -> In a (Object3D.children (h this)) ->
  In a (Object3D.children (Object3D_remove this object h this)).
Proof.
  intros Ha. rewrite remove_children.
  destruct (Array.indexOf _ _) eqn:E; [| tauto]. now apply splice_indexOf_other with object.
Qed.

Lemma remove_NoDup :
  NoDup (Object3D.children (h this)) ->
  NoDup (Object3D.children (Object3D_remove this object h this)) /\
  ~ In object (Object3D.children (Object3D_remove this object h this)).
Proof.
  intros Hnd. rewrite remove_children.
  destruct (Array.indexOf _ _) eqn:E.
  - now apply splice_indexOf_NoDup.
  - split; [assumption | now apply indexOf_None].
Qed.

End Remove.

(** ** The collision check *)

Section Body.
Import Main.

Lemma same_objects_refl (m : t) : same_objects m m.
Proof. unfold same_objects. tauto. Qed.

Lemma same_objects_trans (m1 m2 m3 : t) :
  same_objects m1 m2 -> same_objects m2 m3 -> same_objects m1 m3.
Proof.
  intros (S1 & C1 & L1 & O1 & H1) (S2 & C2 & L2 & O2 & H2).
  unfold same_objects. repeat split; try congruence.
  - rewrite (proj1 (H2 o)). apply H1.
  - rewrite (proj2 (H2 o)). apply H1.
Qed.

Lemma same_objects_collides (m m' : t) (o : ObjId) :
  same_objects m m' ->
  distance_of m' o = distance_of m o /\ threshold m' o = threshold m o /\
  collides m' o = collides m o.
Proof.
  intros (S1 & C1 & L1 & O1 & H1).
  assert (D : distance_of m' o = distance_of m o).
  { unfold distance_of. rewrite C1, !(proj1 (H1 _)). reflexivity. }
  assert (T : threshold m' o = threshold m o).
  { unfold threshold. rewrite C1, (proj2 (H1 _)). reflexivity. }
  unfold collides. rewrite D, T. tauto.
Qed.

Lemma body_None (m : t) (i : nat) :
  nth_error (litter m) i = None -> checkCollision_body i m = m.
Proof. intros H. unfold checkCollision_body. now rewrite H. Qed.

Lemma body_same_objects (m : t) (i : nat) : same_objects m (checkCollision_body i m).
Proof.
  unfold checkCollision_body.
  destruct (nth_error (litter m) i) as [o|]; [| apply same_objects_refl].
  destruct (collides _ o).
  - unfold same_objects. simpl. repeat split; apply remove_keeps.
  - unfold same_objects. simpl. tauto.
Qed.

Lemma body_log (m : t) (i : nat) (o : ObjId) :
  nth_error (litter m) i = Some o ->
  log (checkCollision_body i m) = log m ++ scan_events m i o.
Proof.
  intros H. unfold checkCollision_body, scan_events. rewrite H.
  change (collides (emit _ m) o) with (collides m o).
  destruct (collides m o); simpl.
  - rewrite <- app_assoc. reflexivity.
  - reflexivity.
Qed.

Lemma body_in_scene (m : t) (i : nat) (o : ObjId) :
  nth_error (litter m) i = Some o ->
  in_scene (checkCollision_body i m) =
    if collides m o
    then Object3D.children (Object3D_remove (scene m) o (heap m) (scene m))
    else in_scene m.
Proof.
  intros H. unfold checkCollision_body. rewrite H.
  change (collides (emit _ m) o) with (collides m o).
  destruct (collides m o); reflexivity.
Qed.

(** The loop from the index [i] on runs the body at [i], [i + 1], ... up to
    the length of the litter. *)
Lemma checkCollision_from_bodies (i : nat) (m : t) :
  checkCollision_from i m = bodies (seq i (length (litter m) - i)) m.
Proof.
  funelim (checkCollision_from i m).
  - rewrite H.
    destruct (body_same_objects m i) as (_ & _ & L & _). rewrite L.
    replace (length (litter m) - i)%nat with (S (length (litter m) - S i)) by lia.
    reflexivity.
  - replace (length (litter m) - i)%nat with 0%nat by lia. reflexivity.
Qed.

Lemma bodies_same_objects (indices : list nat) (m : t) :
  same_objects m (bodies indices m).
Proof.
  revert m. induction indices as [|i l IH]; intros m; simpl.
  - apply same_objects_refl.
  - eapply same_objects_trans; [apply body_same_objects | apply IH].
Qed.

End Body.

Section Scan.
Import Main.

Lemma scan_events_same (m m' : t) (i : nat) (o : ObjId) :
  same_objects m m' -> scan_events m' i o = scan_events m i o.
Proof.
  intros H. destruct (same_objects_collides m m' o H) as (D & T & C).
  unfold scan_events. now rewrite D, T, C.
Qed.

(** The log of the loop over the rest [l2] of the litter. *)
Lemma bodies_log (m0 : t) (l2 l1 : list ObjId) (m : t) :
  same_objects m0 m -> litter m0 = l1 ++ l2 ->
  log (bodies (seq (length l1) (length l2)) m)
    = log m ++ scan_from m0 (length l1) l2.
Proof.
  revert l1 m. induction l2 as [|o l2 IH]; intros l1 m Hm Hl; simpl.
  - now rewrite app_nil_r.
  - assert (Hn : nth_error (litter m) (length l1) = Some o).
    { destruct Hm as (_ & _ & L & _). rewrite L, Hl.
      rewrite nth_error_app2 by lia. now rewrite Nat.sub_diag. }
    assert (Hb : same_objects m0 (checkCollision_body (length l1) m))
      by (eapply same_objects_trans; [exact Hm | apply body_same_objects]).
    specialize (IH (l1 ++ [o]) (checkCollision_body (length l1) m) Hb).
    rewrite length_app, Nat.add_1_r in IH. unfold bodies in IH |- *.
    rewrite IH by (rewrite <- app_assoc; exact Hl).
    rewrite (body_log m _ o Hn), (scan_events_same m0 m _ _ Hm).
    rewrite <- app_assoc. reflexivity.
Qed.

Lemma checkCollision_bodies (m : t) :
  checkCollision m = bodies (seq 0 (length (litter m))) m.
Proof.
  unfold checkCollision. rewrite checkCollision_from_bodies.
  now rewrite Nat.sub_0_r.
Qed.

Lemma checkCollision_log (m : t) : log (checkCollision m) = log m ++ scan m.
Proof.
  rewrite checkCollision_bodies.
  apply (bodies_log m (litter m) [] m); [apply same_objects_refl | reflexivity].
Qed.

Lemma checkCollision_same_objects (m : t) : same_objects m (checkCollision m).
Proof. rewrite checkCollision_bodies. apply bodies_same_objects. Qed.

Lemma examined_app (l1 l2 : list Event) :
  examined (l1 ++ l2) = examined l1 ++ examined l2.
Proof.
  induction l1 as [|e l1 IH]; simpl; [reflexivity |].
  destruct e; simpl; now rewrite ?IH.
Qed.

Lemma examined_scan_from (m : t) (i : nat) (l : list ObjId) :
  examined (scan_from m i l) = map (fun o => (o, threshold m o)) l.
Proof.
  revert i. induction l as [|o l IH]; intros i; simpl; [reflexivity |].
  rewrite examined_app, IH. destruct (collides m o); reflexivity.
Qed.

(** The scene after the loop: nothing comes in, *)
Lemma bodies_in_scene_incl (indices : list nat) (m : t) (a : ObjId) :
  In a (in_scene (bodies indices m)) -> In a (in_scene m).
Proof.
  revert m. induction indices as [|i l IH]; intros m; simpl; [tauto |].
  intros H. apply IH in H.
  destruct (nth_error (litter m) i) as [o|] eqn:E.
  - rewrite (body_in_scene m i o E) in H.
    destruct (collides m o); [now apply remove_incl in H | assumption].
  - now rewrite (body_None m i E) in H.
Qed.

(** an object that is no debris, or a debris that does not collide, stays, *)
Lemma bodies_in_scene_keep (indices : list nat) (m : t) (a : ObjId) :
  In a (in_scene m) -> ~ In a (litter m) \/ collides m a = false ->
  In a (in_scene (bodies indices m)).
Proof.
  revert m. induction indices as [|i l IH]; intros m Ha Hk; simpl; [assumption |].
  destruct (body_same_objects m i) as (S & C & L & O & P).
  apply IH.
  - destruct (nth_error (litter m) i) as [o|] eqn:E.
    + rewrite (body_in_scene m i o E).
      destruct (collides m o) eqn:Eo; [| assumption].
      apply remove_other; [| assumption]. intros ->.
      destruct Hk as [Hk|Hk]; [| congruence].
      apply Hk. eapply nth_error_In, E.
    + now rewrite (body_None m i E).
  - rewrite L.
    destruct (same_objects_collides m _ a (body_same_objects m i)) as (_ & _ & Ec).
    now rewrite Ec.
Qed.

Lemma body_NoDup (m : t) (i : nat) :
  NoDup (in_scene m) -> NoDup (in_scene (checkCollision_body i m)).
Proof.
  intros H. destruct (nth_error (litter m) i) as [o|] eqn:E.
  - rewrite (body_in_scene m i o E).
    destruct (collides m o); [now apply remove_NoDup | assumption].
  - now rewrite (body_None m i E).
Qed.

(** and a debris that collides is out, once the loop has been at its
    index. *)
Lemma bodies_in_scene_removed (indices : list nat) (m : t) (a : ObjId) (i : nat) :
  NoDup (in_scene m) -> In i indices -> nth_error (litter m) i = Some a ->
  collides m a = true -> ~ In a (in_scene (bodies indices m)).
Proof.
  revert m. induction indices as [|j l IH]; intros m Hnd Hi Hn Hc; simpl in *;
    [contradiction |].
  destruct Hi as [->|Hi].
  - intros H. apply bodies_in_scene_incl in H.
    rewrite (body_in_scene m i a Hn), Hc in H.
    now apply (remove_NoDup (scene m) a (heap m) Hnd).
  - destruct (body_same_objects m j) as (S & C & L & O & P).
    apply IH; [now apply body_NoDup | assumption | now rewrite L |].
    destruct (same_objects_collides m _ a (body_same_objects m j)) as (_ & _ & Ec).
    now rewrite Ec.
Qed.

End Scan.

(** ** The distance and the test of the collision *)

Lemma abs_sq (a : R) : Rabs a * Rabs a = a * a.
Proof. symmetry. apply (Rsqr_abs a). Qed.

(** On real coordinates the distance of the check is the Euclidean one. *)
Lemma distance_Fin (x1 y1 z1 x2 y2 z2 : R) :
  Main.distance (Vector3.mk (Fin x1) (Fin y1) (Fin z1))
                (Vector3.mk (Fin x2) (Fin y2) (Fin z2))
  = Fin (euclid x1 y1 z1 x2 y2 z2).
Proof.
  unfold Main.distance, euclid. simpl.
  fold (x1 - x2) (y1 - y2) (z1 - z2).
  set (dx := x1 - x2). set (dy := y1 - y2). set (dz := z1 - z2).
  assert (Hsq : Rabs dx * Rabs dx + Rabs dy * Rabs dy + Rabs dz * Rabs dz
                = dx * dx + dy * dy + dz * dz) by now rewrite !abs_sq.
  assert (Hpos : 0 <= dx * dx + dy * dy + dz * dz) by nra.
  assert (Hfar : Math_sqrt (Fin (Rabs dx * Rabs dx + Rabs dy * Rabs dy
                                 + Rabs dz * Rabs dz))
                 = Fin (sqrt (dx * dx + dy * dy + dz * dz))).
  { simpl. rewrite Hsq, (Rneg_pos _ Hpos). reflexivity. }
  destruct (Req_dec_T (Rabs dx) 0) as [Ex|Ex]; simpl; [| exact Hfar].
  destruct (Req_dec_T (Rabs dy) 0) as [Ey|Ey]; simpl; [| exact Hfar].
  destruct (Req_dec_T (Rabs dz) 0) as [Ez|Ez]; simpl; [| exact Hfar].
  rewrite <- Hsq, Ex, Ey, Ez.
  replace (0 * 0 + 0 * 0 + 0 * 0) with 0 by ring. now rewrite sqrt_0.
Qed.

Section Collides.
Import Main.

Variables (m : t) (o : ObjId) (x1 y1 z1 x2 y2 z2 rd rc : R).
Hypothesis Hdebris :
  Object3D.position (heap m o) = Vector3.mk (Fin x1) (Fin y1) (Fin z1).
Hypothesis Hship :
  Object3D.position (heap m (CompoundObject.primary (compound m)))
    = Vector3.mk (Fin x2) (Fin y2) (Fin z2).
Hypothesis Hrd : Object3D.raioCol (heap m o) = Some (Fin rd).
Hypothesis Hrc : CompoundObject.raioCol (compound m) = Some (Fin rc).

Lemma threshold_Fin : threshold m o = Fin (rd + rc).
Proof. unfold threshold. now rewrite Hrd, Hrc. Qed.

Lemma collides_Fin :
  collides m o = true <-> euclid x1 y1 z1 x2 y2 z2 <= rd + rc.
Proof.
  unfold collides, distance_of.
  rewrite threshold_Fin, Hdebris, Hship, distance_Fin.
  apply number_le_Fin.
Qed.

End Collides.

(** The scene after the check, for a debris of the litter. *)
Lemma checkCollision_in_scene (m : Main.t) (o : ObjId) :
  NoDup (Main.in_scene m) -> In o (Main.litter m) ->
  (In o (Main.in_scene (Main.checkCollision m)) <->
   In o (Main.in_scene m) /\ Main.collides m o = false).
Proof.
  intros Hnd Ho. rewrite checkCollision_bodies. split.
  - intros H. split; [now apply bodies_in_scene_incl in H |].
    destruct (Main.collides m o) eqn:Ec; [| reflexivity].
    exfalso. destruct (In_nth_error _ _ Ho) as [i Hi].
    revert H. apply (bodies_in_scene_removed _ m o i Hnd); [| assumption..].
    apply in_seq. split; [lia |]. simpl. apply nth_error_Some. congruence.
  - intros [H Hc]. apply bodies_in_scene_keep; tauto.
Qed.

(** C2, amended: in real arithmetic, where the sums, the products and the
    square root of the test are exact, in the collision check a debris of
    the litter that is in the scene goes out of the scene exactly when its
    Euclidean distance to the primary of the ship is at most the sum of its
    collision radius and of the collision radius of the compound, which
    [#buildScene] sets to 5.52; a debris strictly farther stays.  Positions
    and radii are real, and the children of the scene hold no object
    twice. *)
Theorem collision_removes_within_threshold (m : Main.t) (o : ObjId)
    (x1 y1 z1 x2 y2 z2 rd rc : R) :
  NoDup (Main.in_scene m) ->
  In o (Main.litter m) ->
  In o (Main.in_scene m) ->
  Object3D.position (Main.heap m o) = Vector3.mk (Fin x1) (Fin y1) (Fin z1) ->
  Object3D.position (Main.heap m (CompoundObject.primary (Main.compound m)))
    = Vector3.mk (Fin x2) (Fin y2) (Fin z2) ->
  Object3D.raioCol (Main.heap m o) = Some (Fin rd) ->
  CompoundObject.raioCol (Main.compound m) = Some (Fin rc) ->
  (~ In o (Main.in_scene (Main.checkCollision m)) <->
   euclid x1 y1 z1 x2 y2 z2 <= rd + rc) /\
  (rd + rc < euclid x1 y1 z1 x2 y2 z2 ->
   In o (Main.in_scene (Main.checkCollision m))) /\
  forall rnd,
    CompoundObject.raioCol (Main.compound (Main.constructor rnd))
      = Some (Fin (552 / 100)).
Proof.
  intros Hnd Ho Hin Hd Hs Hrd Hrc.
  pose proof (collides_Fin m o x1 y1 z1 x2 y2 z2 rd rc Hd Hs Hrd Hrc) as Hc.
  pose proof (checkCollision_in_scene m o Hnd Ho) as Hscene.
  split; [| split].
  - rewrite <- Hc, Hscene. destruct (Main.collides m o); split; intros H.
    + reflexivity.
    + intros [_ H']. discriminate.
    + exfalso. apply H. tauto.
    + discriminate.
  - intros Hfar. apply Hscene. split; [assumption |].
    destruct (Main.collides m o); [| reflexivity].
    exfalso. destruct Hc as [Hc _]. specialize (Hc eq_refl). lra.
  - reflexivity.
Qed.

(** ** The frames *)

Section Frames.
Import Main.

Variable controller : KeyController.

Lemma update_litter (delta : number) (m : t) :
  litter (update controller delta m) = litter m.
Proof.
  unfold update. destruct (controller _ _ _ _ _) as [[h so] c]. simpl.
  apply (checkCollision_same_objects m).
Qed.

Lemma update_log (delta : number) (m : t) :
  log (update controller delta m) = log m ++ scan m ++ [KeysProcessed; LookedAt].
Proof.
  unfold update. destruct (controller _ _ _ _ _) as [[h so] c]. simpl.
  rewrite checkCollision_log, <- !app_assoc. reflexivity.
Qed.

Lemma update_controller (delta : number) (m : t) :
  (heap (update controller delta m), sceneObjects (update controller delta m),
   compound (update controller delta m))
  = controller (heap (checkCollision m)) (sceneObjects (checkCollision m))
      (compound (checkCollision m)) delta (_EARTH_RADIUS * Fin (12 / 10))%js.
Proof.
  unfold update. simpl. destruct (controller _ _ _ _ _) as [[h so] c]. reflexivity.
Qed.

Lemma animate_litter (delta : number) (m : t) :
  litter (animate controller delta m) = litter m.
Proof. unfold animate, display. simpl. apply update_litter. Qed.

Lemma animate_log (delta : number) (m : t) :
  log (animate controller delta m)
    = log m ++ scan m ++ [KeysProcessed; LookedAt; Rendered].
Proof.
  unfold animate, display. simpl. rewrite update_log, <- !app_assoc. reflexivity.
Qed.

Lemma frames_litter (deltas : list number) (m : t) :
  litter (frames controller deltas m) = litter m.
Proof.
  revert m. induction deltas as [|d l IH]; intros m; simpl; [reflexivity |].
  rewrite IH. apply animate_litter.
Qed.

Lemma frames_snoc (deltas : list number) (delta : number) (m : t) :
  frames controller (deltas ++ [delta]) m
    = animate controller delta (frames controller deltas m).
Proof.
  revert m. induction deltas as [|d l IH]; intros m; simpl; [reflexivity |].
  apply IH.
Qed.

End Frames.

Lemma scanned_objects (m : Main.t) : map fst (examined (scan m)) = Main.litter m.
Proof.
  unfold scan. rewrite examined_scan_from, map_map. simpl. apply map_id.
Qed.

Lemma scan_from_steps (m : Main.t) (i : nat) (l : list ObjId) :
  Forall (fun e => match e with
                   | Examined _ _ _ _ | SceneRemove _ => True
                   | _ => False
                   end) (scan_from m i l).
Proof.
  revert i. induction l as [|o l IH]; intros i; simpl; [constructor |].
  constructor; [exact I |]. apply Forall_app. split; [| apply IH].
  destruct (Main.collides m o); repeat constructor.
Qed.

(** C5: every call of [#update] scans the whole litter for collisions before
    the key input is processed, and every call of [animate] does so before
    the scene is rendered: the steps of a frame are the scan of the litter,
    then the processing of the keys, [lookAt] and the rendering; this holds
    for the frame that follows any number of frames, the scan is always over
    the same litter, and the key controller works on the objects as the scan
    leaves them. *)
Theorem collision_check_every_frame (controller : KeyController)
    (deltas : list number) (delta : number) (m0 : Main.t) :
  let m := Main.frames controller deltas m0 in
  Main.log (Main.update controller delta m)
    = Main.log m ++ scan m ++ [KeysProcessed; LookedAt] /\
  Main.log (Main.frames controller (deltas ++ [delta]) m0)
    = Main.log m ++ scan m ++ [KeysProcessed; LookedAt; Rendered] /\
  map fst (examined (scan m)) = Main.litter m0 /\
  Forall (fun e => match e with
                   | Examined _ _ _ _ | SceneRemove _ => True
                   | _ => False
                   end) (scan m) /\
  (Main.heap (Main.update controller delta m),
   Main.sceneObjects (Main.update controller delta m),
   Main.compound (Main.update controller delta m))
  = controller (Main.heap (Main.checkCollision m))
      (Main.sceneObjects (Main.checkCollision m))
      (Main.compound (Main.checkCollision m)) delta
      (Main._EARTH_RADIUS * Fin (12 / 10))%js.
Proof.
  intros m. repeat split.
  - apply update_log.
  - rewrite frames_snoc. apply animate_log.
  - rewrite scanned_objects. apply frames_litter.
  - apply scan_from_steps.
  - apply update_controller.
Qed.

(** C9: a call of the collision check leaves the litter array as it is, also
    when it takes a colliding debris out of the scene: [slice] gives its
    receiver back unchanged, the litter after the check is the litter
    before, and after any number of frames the next check examines every
    debris of the first litter again, the removed ones included. *)
Theorem litter_never_modified (controller : KeyController)
    (deltas : list number) (m : Main.t) :
  Main.litter (Main.checkCollision m) = Main.litter m /\
  (forall i, snd (Array.slice (Main.litter m) i 1) = Main.litter m) /\
  let m' := Main.frames controller deltas m in
  Main.litter m' = Main.litter m /\
  Main.log (Main.checkCollision m') = Main.log m' ++ scan m' /\
  map fst (examined (scan m')) = Main.litter m.
Proof.
  split; [apply (checkCollision_same_objects m) |].
  split; [reflexivity |].
  intros m'. split; [apply frames_litter |].
  split; [apply checkCollision_log |].
  rewrite scanned_objects. apply frames_litter.
Qed.

(** ** The scene the constructor builds *)

Lemma sizeMin_3 : Main.sizeMin = Fin 3.
Proof.
  unfold Main.sizeMin, Main._EARTH_RADIUS. rewrite div_Fin by lra. simpl.
  do 2 f_equal. apply Zceil_eq. simpl. lra.
Qed.

Lemma sizeMax_3 : Main.sizeMax = Fin 3.
Proof.
  unfold Main.sizeMax, Main._EARTH_RADIUS. rewrite div_Fin by lra. simpl.
  do 2 f_equal. apply Zfloor_eq. simpl. lra.
Qed.

Lemma orbitMin_84 : Main.orbitMin = Fin 84.
Proof.
  unfold Main.orbitMin, Main._EARTH_RADIUS. simpl.
  do 2 f_equal. apply Zceil_eq. simpl. lra.
Qed.

Lemma orbitMax_84 : Main.orbitMax = Fin (-84).
Proof.
  unfold Main.orbitMax, Main._EARTH_RADIUS. simpl.
  do 2 f_equal. apply Zfloor_eq. simpl. lra.
Qed.

(** [min] and [max] of the sizes are both 3, so every size drawn is 3. *)
Lemma size_3 (r : R) :
  (Math_floor (Fin r * (Main.sizeMax - Main.sizeMin)) + Main.sizeMin)%js = Fin 3.
Proof.
  rewrite sizeMin_3, sizeMax_3. simpl. f_equal.
  replace (r * (3 + - (3))) with (IZR 0) by (simpl; ring).
  rewrite ZfloorZ. simpl. ring.
Qed.

(** Runs the construction on the left of an equation, down to the
    arithmetic on numbers. *)
Ltac run_constructor :=
  match goal with
  | |- ?l = ?r =>
      let l' := eval lazy -[add sub mul div neg number_le Math_floor Math_ceil
                            Math_sqrt Main.pow2 Main.sizeMin Main.sizeMax
                            Main.orbitMin Main.orbitMax
                            Rplus Rminus Rmult Rdiv Ropp Rinv IZR sqrt] in l in
      change (l' = r)
  end.

Lemma constructor_litter (rnd : nat -> R) :
  Main.litter (Main.constructor rnd) = seq 4 20.
Proof. reflexivity. Qed.

Lemma constructor_in_scene (rnd : nat -> R) :
  Main.in_scene (Main.constructor rnd) = 3%nat :: seq 4 20 ++ [0%nat].
Proof. reflexivity. Qed.

Lemma constructor_compound (rnd : nat -> R) :
  Main.compound (Main.constructor rnd)
    = CompoundObject.mk 25 30 0 (Some (Fin (552 / 100))).
Proof. reflexivity. Qed.

Lemma constructor_NoDup (rnd : nat -> R) : NoDup (Main.in_scene (Main.constructor rnd)).
Proof.
  rewrite constructor_in_scene. constructor.
  - rewrite in_app_iff, in_seq. simpl. lia.
  - apply NoDup_app.
    + apply seq_NoDup.
    + repeat constructor. simpl. tauto.
    + intros a Ha. rewrite in_seq in Ha. simpl. lia.
Qed.

(** The first cube and the first cylinder, whatever [Math.random] gives. *)
Lemma cube_raioCol (rnd : nat -> R) :
  Object3D.raioCol (Main.heap (Main.constructor rnd) 4%nat)
    = Some (Fin (sqrt 3 / 2 * 3)).
Proof.
  run_constructor. rewrite size_3. simpl.
  rewrite (Rneg_pos 3) by lra. simpl. rewrite (Rzero_neq 2) by lra. reflexivity.
Qed.


Lemma orbit_half :
  (Math_floor (Fin (1 / 2) * (Main.orbitMax - Main.orbitMin)) + Main.orbitMin)%js
  = Fin 0.
Proof.
  rewrite orbitMin_84, orbitMax_84. simpl. f_equal.
  replace (1 / 2 * (-84 + - (84))) with (IZR (-84)) by (simpl; lra).
  rewrite ZfloorZ. simpl. lra.
Qed.

Lemma orbit_z_half :
  (if (Fin (5 / 10) <=? Fin (1 / 2))%js
   then Math_sqrt (Main.pow2 (Fin 70 * Fin (12 / 10)) - Main.pow2 (Fin 0)
                   - Main.pow2 (Fin 0))%js
   else neg (Math_sqrt (Main.pow2 (Fin 70 * Fin (12 / 10)) - Main.pow2 (Fin 0)
                        - Main.pow2 (Fin 0))%js))
  = Fin 84.
Proof.
  replace ((Fin (5 / 10) <=? Fin (1 / 2))%js) with true
    by (symmetry; apply number_le_Fin; lra).
  unfold Main.pow2. simpl.
  replace (70 * (12 / 10) * (70 * (12 / 10)) + - (0 * 0) + - (0 * 0))
    with (84 * 84) by lra.
  rewrite Rneg_pos by lra. now rewrite sqrt_square by lra.
Qed.

Lemma scene_half_cube :
  Object3D.position (Main.heap Examples.scene_half 4%nat)
    = Vector3.mk (Fin 0) (Fin 0) (Fin 84).
Proof.
  unfold Examples.scene_half, Examples.half.
  run_constructor. rewrite !orbit_half. rewrite orbit_z_half. reflexivity.
Qed.

Lemma scene_half_ship :
  Object3D.position (Main.heap Examples.scene_half 25%nat)
    = Vector3.mk (Fin 0) (Fin 0) (Fin 84).
Proof.
  unfold Examples.scene_half, Examples.half.
  run_constructor. rewrite !orbit_half. rewrite orbit_z_half. reflexivity.
Qed.

Lemma collision_removes_within_threshold_witness :
  (~ In 4%nat (Main.in_scene (Main.checkCollision Examples.scene_half)) <->
   euclid 0 0 84 0 0 84 <= sqrt 3 / 2 * 3 + 552 / 100) /\
  (sqrt 3 / 2 * 3 + 552 / 100 < euclid 0 0 84 0 0 84 ->
   In 4%nat (Main.in_scene (Main.checkCollision Examples.scene_half))) /\
  forall rnd,
    CompoundObject.raioCol (Main.compound (Main.constructor rnd))
      = Some (Fin (552 / 100)).
Proof.
  apply (collision_removes_within_threshold Examples.scene_half 4
           0 0 84 0 0 84 (sqrt 3 / 2 * 3) (552 / 100)).
  - apply constructor_NoDup.
  - unfold Examples.scene_half. rewrite constructor_litter. simpl. tauto.
  - unfold Examples.scene_half. rewrite constructor_in_scene. simpl. tauto.
  - exact scene_half_cube.
  - exact scene_half_ship.
  - apply cube_raioCol.
  - reflexivity.
Defined.

(** ** The test on double-precision numbers *)

Lemma sqrt_le_sq (s t : R) : 0 <= s -> 0 <= t -> s <= t * t -> sqrt s <= t.
Proof.
  intros Hs Ht H. rewrite <- (sqrt_square t Ht). apply sqrt_le_1; nra.
Qed.

Lemma sq_lt_sqrt (s t : R) : 0 <= t -> t * t < s -> t < sqrt s.
Proof.
  intros Ht H. rewrite <- (sqrt_square t Ht). apply sqrt_lt_1; nra.
Qed.

Lemma sqrt_lt_sq (s t : R) : 0 <= s -> 0 <= t -> s < t * t -> sqrt s < t.
Proof.
  intros Hs Ht H. rewrite <- (sqrt_square t Ht). apply sqrt_lt_1; nra.
Qed.

Lemma sqrt_3_bounds :
  17320508075688772 / 10000000000000000 < sqrt 3
  < 17320508075688773 / 10000000000000000.
Proof.
  split.
  - apply sq_lt_sqrt; lra.
  - apply sqrt_lt_sq; lra.
Qed.

(** The values of the doubles of a goal, computed. *)
Ltac exact_values :=
  unfold Double.exact_distance, Double.exact_threshold, euclid, Double.real;
  repeat match goal with
         | |- context [Double.exact ?f] =>
             let v := eval vm_compute in (Double.exact f) in
             change (Double.exact f) with v
         end;
  cbn [fst snd].

Lemma Double_body_litter (i : nat) (m : Double.t) :
  Double.litter (Double.checkCollision_body i m) = Double.litter m.
Proof.
  unfold Double.checkCollision_body.
  destruct (nth_error (Double.litter m) i); [| reflexivity].
  now destruct (Double.collides m o).
Qed.

(** The loop has ended within the turns [Double.checkCollision] gives it:
    more turns change nothing. *)
Lemma Double_turns_enough (k turns i : nat) (m : Double.t) :
  (length (Double.litter m) <= turns + i)%nat ->
  Double.checkCollision_from (turns + k) i m = Double.checkCollision_from turns i m.
Proof.
  revert i m. induction turns as [| turns IH]; intros i m H; simpl.
  - destruct k as [| k]; simpl; [reflexivity |].
    destruct (Nat.ltb_spec i (length (Double.litter m))); [lia | reflexivity].
  - destruct (i <? length (Double.litter m))%nat; [| reflexivity].
    apply IH. rewrite Double_body_litter. lia.
Qed.

(** C2, as stated, fails on the numbers of the program, which round: with a
    cube of size 3 at x = 12, y = 35 on the orbit and the primary at
    (3.933304171332872, 35.769327880881704, 75.90180696956926), the
    Euclidean distance of the two positions, 8.1180762113533149..., is at
    most the sum of the collision radius of the cube and of 5.52 (the sum of
    the two doubles, 8.1180762113533155..., and the sum of sqrt(3)/2*3 and
    5.52, 8.1180762113533159...), but the check computes the distance
    8.118076211353317 and the bound 8.118076211353316, finds no collision
    and leaves the cube in the scene. *)
Lemma rounding_keeps_debris_within_threshold :
  In 4%nat (Double.litter Double.within) /\
  In 4%nat (Double.children Double.within) /\
  Double.exact_distance Double.within 4 <= Double.exact_threshold Double.within 4 /\
  Double.exact_distance Double.within 4 <= sqrt 3 / 2 * 3 + 552 / 100 /\
  Double.collides Double.within 4 = false /\
  In 4%nat (Double.children (Double.checkCollision Double.within)).
Proof.
  assert (H : Double.exact_distance Double.within 4
              <= Double.exact_threshold Double.within 4).
  { exact_values. apply sqrt_le_sq; [nra | lra | lra]. }
  split; [simpl; tauto |]. split; [simpl; tauto |].
  split; [exact H |]. split; [| split].
  - apply Rle_trans with (1 := H).
    pose proof sqrt_3_bounds as [Hs _]. exact_values. lra.
  - vm_compute. reflexivity.
  - assert (E : Double.children (Double.checkCollision Double.within)
                = [3; 4; 0]%nat) by (vm_compute; reflexivity).
    rewrite E. simpl. tauto.
Qed.

(** ** What the check leaves in place *)

(** C7, amended: a run of the collision check only takes debris out of the
    scene: it changes no position; no object comes into the scene; an
    object that leaves the scene is a debris of the litter that the test of
    the check finds within its threshold; an object that is not in the
    litter stays, and so do a debris that the test finds beyond its
    threshold and, in real arithmetic, where the distance and the bound of
    the test are exact, a debris strictly beyond its threshold; in the scene
    the constructor builds, and after any number of frames, the earth
    (object 3, the first scene object) and the group of the compound
    (object 0) are not in the litter and stay. *)
Theorem check_only_removes_debris (m : Main.t) :
  let m' := Main.checkCollision m in
  (forall o, Object3D.position (Main.heap m' o) = Object3D.position (Main.heap m o)) /\
  (forall o, In o (Main.in_scene m') -> In o (Main.in_scene m)) /\
  (forall o, In o (Main.in_scene m) -> ~ In o (Main.in_scene m') ->
             In o (Main.litter m) /\ Main.collides m o = true) /\
  (forall o, In o (Main.in_scene m) -> ~ In o (Main.litter m) ->
             In o (Main.in_scene m')) /\
  (forall o, In o (Main.in_scene m) -> Main.collides m o = false ->
             In o (Main.in_scene m')) /\
  (forall o x1 y1 z1 x2 y2 z2 rd rc,
     In o (Main.in_scene m) ->
     Object3D.position (Main.heap m o) = Vector3.mk (Fin x1) (Fin y1) (Fin z1) ->
     Object3D.position (Main.heap m (CompoundObject.primary (Main.compound m)))
       = Vector3.mk (Fin x2) (Fin y2) (Fin z2) ->
     Object3D.raioCol (Main.heap m o) = Some (Fin rd) ->
     CompoundObject.raioCol (Main.compound m) = Some (Fin rc) ->
     rd + rc < euclid x1 y1 z1 x2 y2 z2 ->
     In o (Main.in_scene m')) /\
  (forall rnd controller deltas,
     let m0 := Main.constructor rnd in
     let mk := Main.frames controller deltas m0 in
     hd_error (Main.sceneObjects m0) = Some 3%nat /\
     CompoundObject.group (Main.compound m0) = 0%nat /\
     In 3%nat (Main.in_scene m0) /\ In 0%nat (Main.in_scene m0) /\
     (In 3%nat (Main.in_scene mk) -> In 3%nat (Main.in_scene (Main.checkCollision mk))) /\
     (In 0%nat (Main.in_scene mk) -> In 0%nat (Main.in_scene (Main.checkCollision mk)))).
Proof.
  intros m'. unfold m'.
  split; [| split; [| split; [| split; [| split; [| split]]]]].
  - intros o. apply (checkCollision_same_objects m).
  - intros o. rewrite checkCollision_bodies. apply bodies_in_scene_incl.
  - intros o Hin Hout.
    assert (Hl : In o (Main.litter m)).
    { destruct (in_dec Nat.eq_dec o (Main.litter m)) as [H|H]; [assumption |].
      exfalso. apply Hout. rewrite checkCollision_bodies.
      apply bodies_in_scene_keep; tauto. }
    split; [assumption |].
    destruct (Main.collides m o) eqn:Ec; [reflexivity |].
    exfalso. apply Hout. rewrite checkCollision_bodies.
    apply bodies_in_scene_keep; tauto.
  - intros o Hin Hl. rewrite checkCollision_bodies.
    apply bodies_in_scene_keep; tauto.
  - intros o Hin Hc. rewrite checkCollision_bodies.
    apply bodies_in_scene_keep; tauto.
  - intros o x1 y1 z1 x2 y2 z2 rd rc Hin Hd Hs Hrd Hrc Hfar.
    rewrite checkCollision_bodies. apply bodies_in_scene_keep; [assumption |].
    right. destruct (Main.collides m o) eqn:Ec; [| reflexivity].
    apply (collides_Fin m o x1 y1 z1 x2 y2 z2 rd rc Hd Hs Hrd Hrc) in Ec. lra.
  - intros rnd controller deltas. cbv zeta.
    assert (Hl : Main.litter (Main.frames controller deltas (Main.constructor rnd))
                 = seq 4 20).
    { rewrite frames_litter. apply constructor_litter. }
    split; [reflexivity |]. split; [reflexivity |].
    split; [rewrite constructor_in_scene; simpl; tauto |].
    split; [rewrite constructor_in_scene; simpl; tauto |].
    split; intros Hin; rewrite checkCollision_bodies;
      (apply bodies_in_scene_keep; [assumption |]);
      left; rewrite Hl, in_seq; lia.
Qed.

(** C7, as stated, fails on the numbers of the program, which round: with a
    cube of size 3 at x = 10, y = -60 on the orbit and the primary at
    (17.572166575838665, -57.242354180459834, 58.91122006638269), the
    Euclidean distance of the two positions, 8.1180762113533168..., is
    beyond the sum of the collision radius of the cube and of 5.52 (the sum
    of the two doubles, 8.1180762113533155..., the sum of sqrt(3)/2*3 and
    5.52, 8.1180762113533159..., and the sum of the double of the radius and
    5.52, 8.1180762113533160...), but the check computes the distance
    8.118076211353316, equal to the bound it computes, and takes the cube
    out of the scene. *)
Lemma rounding_removes_debris_beyond_threshold :
  In 4%nat (Double.litter Double.beyond) /\
  In 4%nat (Double.children Double.beyond) /\
  Double.exact_threshold Double.beyond 4 < Double.exact_distance Double.beyond 4 /\
  sqrt 3 / 2 * 3 + 552 / 100 < Double.exact_distance Double.beyond 4 /\
  Double.real (Double.to_number (Double.raioCol (Double.objects Double.beyond 4)))
    + 552 / 100 < Double.exact_distance Double.beyond 4 /\
  Double.collides Double.beyond 4 = true /\
  ~ In 4%nat (Double.children (Double.checkCollision Double.beyond)).
Proof.
  assert (H : 81180762113533165 / 10000000000000000
              < Double.exact_distance Double.beyond 4).
  { exact_values. apply sq_lt_sqrt; lra. }
  split; [simpl; tauto |]. split; [simpl; tauto |].
  split; [| split; [| split; [| split]]].
  - apply Rlt_trans with (2 := H). exact_values. lra.
  - apply Rlt_trans with (2 := H).
    pose proof sqrt_3_bounds as [_ Hs]. lra.
  - apply Rlt_trans with (2 := H). exact_values. lra.
  - vm_compute. reflexivity.
  - assert (E : Double.children (Double.checkCollision Double.beyond)
                = [3; 0]%nat) by (vm_compute; reflexivity).
    rewrite E. simpl. intros [H'|[H'|[]]]; discriminate.
Qed.

(** ** The bound of each comparison *)




(** * Further properties of the code *)

(** ** The moves on the sphere, one after the other *)

Section MoveUpDown.
Import CompoundObject.

Variables (c : CompoundObject.t) (delta r xv yv zv : R) (h : Heap).
Hypothesis Hr : r <> 0.
Hypothesis Hp :
  Object3D.position (h (primary c)) = Vector3.mk (Fin xv) (Fin yv) (Fin zv).

Let a : R := acos (Rmax (-1) (Rmin 1 (yv / r))).
Let theta : R := Ratan2 xv zv.

Lemma position_move_UP :
  Object3D.position (move c UP (Fin delta) (Fin r) h (primary c)) =
    Vector3.mk (Fin (sin (a + 3 * delta) * r * sin theta))
               (Fin (cos (a + 3 * delta) * r))
               (Fin (sin (a + 3 * delta) * r * cos theta)).
Proof.
  unfold move. rewrite position_applyRotation.
  rewrite (phi_Fin _ yv r) by (rewrite ?Hp; auto).
  unfold CompoundObject.theta. rewrite Hp. reflexivity.
Qed.

Lemma position_move_DOWN :
  Object3D.position (move c DOWN (Fin delta) (Fin r) h (primary c)) =
    Vector3.mk (Fin (sin (a + - (3 * delta)) * r * sin theta))
               (Fin (cos (a + - (3 * delta)) * r))
               (Fin (sin (a + - (3 * delta)) * r * cos theta)).
Proof.
  unfold move. rewrite position_applyRotation.
  rewrite (phi_Fin _ yv r) by (rewrite ?Hp; auto).
  unfold CompoundObject.theta. rewrite Hp. reflexivity.
Qed.

End MoveUpDown.

(** The polar angle [move] recovers after a move is the one it has set. *)
Lemma phi_again (a r : R) :
  r <> 0 -> 0 <= a <= PI -> acos (Rmax (-1) (Rmin 1 (cos a * r / r))) = a.
Proof.
  intros Hr Ha. replace (cos a * r / r) with (cos a) by (field; assumption).
  rewrite clamp_id by apply COS_bound. now apply acos_cos.
Qed.

Lemma phi_bound (v : R) : 0 <= acos (Rmax (-1) (Rmin 1 v)) <= PI.
Proof. apply acos_bound. Qed.

(** The angle of the point that theta + s gives, plus t, gives the point of
    theta + s + t. *)
Lemma turn_again (rho theta s t : R) :
  0 <= rho ->
  let x1 := rho * sin (theta + s) in
  let z1 := rho * cos (theta + s) in
  rho * sin (Ratan2 x1 z1 + t) = rho * sin (theta + s + t) /\
  rho * cos (Ratan2 x1 z1 + t) = rho * cos (theta + s + t).
Proof.
  intros Hrho x1 z1.
  destruct (Ratan2_polar x1 z1) as [Hs Hc].
  assert (E : sqrt (x1 * x1 + z1 * z1) = rho).
  { replace (x1 * x1 + z1 * z1)
      with (rho * rho * (sin (theta + s) * sin (theta + s)
                         + cos (theta + s) * cos (theta + s)))
      by (unfold x1, z1; ring).
    rewrite sin_cos_1, Rmult_1_r. fold (Rsqr rho). now apply sqrt_Rsqr. }
  rewrite E in Hs, Hc.
  rewrite !sin_plus, !cos_plus. split.
  - transitivity ((rho * sin (Ratan2 x1 z1)) * cos t + (rho * cos (Ratan2 x1 z1)) * sin t);
      [ring |]. rewrite Hs, Hc. unfold x1, z1. rewrite sin_plus, cos_plus. ring.
  - transitivity ((rho * cos (Ratan2 x1 z1)) * cos t - (rho * sin (Ratan2 x1 z1)) * sin t);
      [ring |]. rewrite Hs, Hc. unfold x1, z1. rewrite sin_plus, cos_plus. ring.
Qed.

(** The angle of a point away from the axis has the sine and the cosine of
    the angle that gave the point. *)
Lemma same_angle (rho theta : R) :
  0 < rho ->
  sin (Ratan2 (rho * sin theta) (rho * cos theta)) = sin theta /\
  cos (Ratan2 (rho * sin theta) (rho * cos theta)) = cos theta.
Proof.
  intros Hrho.
  destruct (turn_again rho theta 0 0 (Rlt_le _ _ Hrho)) as [Hs Hc].
  rewrite !Rplus_0_r in Hs, Hc.
  split; apply Rmult_eq_reg_l with rho; lra.
Qed.

(** X1: in real arithmetic, for a world radius r > 0 and a primary of real
    coordinates, two moves around the axis compose: LEFT by d1 then LEFT by
    d2 is LEFT by d1 + d2, RIGHT then RIGHT likewise, and LEFT by d1 then
    RIGHT by d2 is LEFT by d1 - d2; the primary need not be on the sphere at
    first. *)
Theorem left_right_compose (c : CompoundObject.t) (d1 d2 r xv yv zv : R)
    (h : Heap) :
  0 < r ->
  Object3D.position (h (CompoundObject.primary c))
    = Vector3.mk (Fin xv) (Fin yv) (Fin zv) ->
  let p := CompoundObject.primary c in
  let mv := fun d delta => CompoundObject.move c d (Fin delta) (Fin r) in
  Object3D.position (mv LEFT d2 (mv LEFT d1 h) p)
    = Object3D.position (mv LEFT (d1 + d2) h p) /\
  Object3D.position (mv RIGHT d2 (mv RIGHT d1 h) p)
    = Object3D.position (mv RIGHT (d1 + d2) h p) /\
  Object3D.position (mv RIGHT d2 (mv LEFT d1 h) p)
    = Object3D.position (mv LEFT (d1 - d2) h p).
Proof.
  intros Hr Hp p mv. unfold mv, p.
  assert (Hr' : r <> 0) by lra.
  set (a := acos (Rmax (-1) (Rmin 1 (yv / r)))).
  assert (Ha : 0 <= a <= PI) by apply phi_bound.
  assert (Hrho : 0 <= sin a * r).
  { apply Rmult_le_pos; [apply sin_ge_0; lra | lra]. }
  assert (T : forall s t,
    Vector3.mk
      (Fin (sin (acos (Rmax (-1) (Rmin 1 (cos a * r / r))) ) * r
            * sin (Ratan2 (sin a * r * sin (Ratan2 xv zv + s))
                          (sin a * r * cos (Ratan2 xv zv + s)) + t)))
      (Fin (cos (acos (Rmax (-1) (Rmin 1 (cos a * r / r)))) * r))
      (Fin (sin (acos (Rmax (-1) (Rmin 1 (cos a * r / r)))) * r
            * cos (Ratan2 (sin a * r * sin (Ratan2 xv zv + s))
                          (sin a * r * cos (Ratan2 xv zv + s)) + t)))
    = Vector3.mk (Fin (sin a * r * sin (Ratan2 xv zv + s + t))) (Fin (cos a * r))
                 (Fin (sin a * r * cos (Ratan2 xv zv + s + t)))).
  { intros s t. rewrite (phi_again a r Hr' Ha).
    destruct (turn_again (sin a * r) (Ratan2 xv zv) s t Hrho) as [Es Ec].
    cbv zeta in Es, Ec. now rewrite Es, Ec. }
  repeat split.
  - rewrite (position_move_LEFT c d2 r _ _ _ _ Hr'
               (position_move_LEFT c d1 r xv yv zv h Hr' Hp)).
    rewrite (position_move_LEFT c (d1 + d2) r xv yv zv h Hr' Hp).
    fold a. rewrite T. do 3 f_equal; f_equal; ring.
  - rewrite (position_move_RIGHT c d2 r _ _ _ _ Hr'
               (position_move_RIGHT c d1 r xv yv zv h Hr' Hp)).
    rewrite (position_move_RIGHT c (d1 + d2) r xv yv zv h Hr' Hp).
    fold a. rewrite T. do 3 f_equal; f_equal; ring.
  - rewrite (position_move_RIGHT c d2 r _ _ _ _ Hr'
               (position_move_LEFT c d1 r xv yv zv h Hr' Hp)).
    rewrite (position_move_LEFT c (d1 - d2) r xv yv zv h Hr' Hp).
    fold a. rewrite T. do 3 f_equal; f_equal; ring.
Qed.

Lemma left_right_compose_witness :
  let p := CompoundObject.primary Examples.ship in
  let mv := fun d delta => CompoundObject.move Examples.ship d (Fin delta) (Fin 84) in
  Object3D.position (mv LEFT 2 (mv LEFT 1 Examples.above) p)
    = Object3D.position (mv LEFT (1 + 2) Examples.above p) /\
  Object3D.position (mv RIGHT 2 (mv RIGHT 1 Examples.above) p)
    = Object3D.position (mv RIGHT (1 + 2) Examples.above p) /\
  Object3D.position (mv RIGHT 2 (mv LEFT 1 Examples.above) p)
    = Object3D.position (mv LEFT (1 - 2) Examples.above p).
Proof.
  apply (left_right_compose Examples.ship 1 2 84 0 100 0 Examples.above).
  - lra.
  - reflexivity.
Defined.

(** X2: on the sphere of radius r > 0, when the polar angle acos(y / r) is
    more than 3 |delta| away from 0 and from PI, [move] UP then [move] DOWN
    by the same delta gives the primary its position back, and so does DOWN
    then UP. *)
Theorem up_down_round_trip (c : CompoundObject.t) (delta r xv yv zv : R)
    (h : Heap) :
  0 < r ->
  Object3D.position (h (CompoundObject.primary c))
    = Vector3.mk (Fin xv) (Fin yv) (Fin zv) ->
  xv * xv + yv * yv + zv * zv = r * r ->
  3 * Rabs delta < acos (yv / r) < PI - 3 * Rabs delta ->
  Object3D.position
    (CompoundObject.move c DOWN (Fin delta) (Fin r)
       (CompoundObject.move c UP (Fin delta) (Fin r) h)
       (CompoundObject.primary c))
  = Vector3.mk (Fin xv) (Fin yv) (Fin zv) /\
  Object3D.position
    (CompoundObject.move c UP (Fin delta) (Fin r)
       (CompoundObject.move c DOWN (Fin delta) (Fin r) h)
       (CompoundObject.primary c))
  = Vector3.mk (Fin xv) (Fin yv) (Fin zv).
Proof.
  intros Hr Hp Hs Hd.
  assert (Hr' : r <> 0) by lra.
  assert (Hd1 : delta <= Rabs delta) by apply Rle_abs.
  assert (Hd2 : - delta <= Rabs delta) by (rewrite <- Rabs_Ropp; apply Rle_abs).
  destruct (sphere_polar xv yv zv r Hr Hs) as (Ha & Hrho & Hy & Hx & Hz).
  assert (Hc : Rmax (-1) (Rmin 1 (yv / r)) = yv / r).
  { apply clamp_id. rewrite <- Hy.
    replace (cos (acos (Rmax (-1) (Rmin 1 (yv / r)))) * r / r)
      with (cos (acos (Rmax (-1) (Rmin 1 (yv / r))))) by (field; lra).
    apply COS_bound. }
  rewrite Hc in Ha, Hrho, Hy, Hx, Hz.
  set (a := acos (yv / r)) in *.
  assert (Back : forall s, 0 < a + s < PI ->
    Vector3.mk
      (Fin (sin (acos (Rmax (-1) (Rmin 1 (cos (a + s) * r / r))) + - s) * r
            * sin (Ratan2 (sin (a + s) * r * sin (Ratan2 xv zv))
                          (sin (a + s) * r * cos (Ratan2 xv zv)))))
      (Fin (cos (acos (Rmax (-1) (Rmin 1 (cos (a + s) * r / r))) + - s) * r))
      (Fin (sin (acos (Rmax (-1) (Rmin 1 (cos (a + s) * r / r))) + - s) * r
            * cos (Ratan2 (sin (a + s) * r * sin (Ratan2 xv zv))
                          (sin (a + s) * r * cos (Ratan2 xv zv)))))
    = Vector3.mk (Fin xv) (Fin yv) (Fin zv)).
  { intros s Hs'. rewrite (phi_again (a + s) r Hr') by lra.
    replace (a + s + - s) with a by ring.
    assert (Hpos : 0 < sin (a + s) * r)
      by (apply Rmult_lt_0_compat; [apply sin_gt_0; lra | lra]).
    destruct (same_angle (sin (a + s) * r) (Ratan2 xv zv) Hpos) as [Es Ec].
    now rewrite Es, Ec, Hx, Hy, Hz. }
  split.
  - rewrite (position_move_DOWN c delta r _ _ _ _ Hr'
               (position_move_UP c delta r xv yv zv h Hr' Hp)).
    rewrite Hc. fold a. apply Back. lra.
  - rewrite (position_move_UP c delta r _ _ _ _ Hr'
               (position_move_DOWN c delta r xv yv zv h Hr' Hp)).
    rewrite Hc. fold a.
    specialize (Back (- (3 * delta)) ltac:(lra)).
    rewrite Ropp_involutive in Back. exact Back.
Qed.

Lemma up_down_round_trip_witness :
  Object3D.position
    (CompoundObject.move Examples.ship DOWN (Fin (1 / 10)) (Fin 84)
       (CompoundObject.move Examples.ship UP (Fin (1 / 10)) (Fin 84) Examples.equator)
       (CompoundObject.primary Examples.ship))
  = Vector3.mk (Fin 84) (Fin 0) (Fin 0) /\
  Object3D.position
    (CompoundObject.move Examples.ship UP (Fin (1 / 10)) (Fin 84)
       (CompoundObject.move Examples.ship DOWN (Fin (1 / 10)) (Fin 84) Examples.equator)
       (CompoundObject.primary Examples.ship))
  = Vector3.mk (Fin 84) (Fin 0) (Fin 0).
Proof.
  apply (up_down_round_trip Examples.ship (1 / 10) 84 84 0 0 Examples.equator).
  - lra.
  - reflexivity.
  - lra.
  - replace (0 / 84) with 0 by lra. rewrite acos_0.
    rewrite Rabs_right by lra. generalize PI2_3_2. lra.
Defined.

(** X3: on the sphere of radius r > 0 a move by delta = 0, in any of the
    four directions, leaves the primary where it is. *)
Theorem move_zero_delta (c : CompoundObject.t) (direction : Direction)
    (r xv yv zv : R) (h : Heap) :
  0 < r ->
  Object3D.position (h (CompoundObject.primary c))
    = Vector3.mk (Fin xv) (Fin yv) (Fin zv) ->
  xv * xv + yv * yv + zv * zv = r * r ->
  Object3D.position
    (CompoundObject.move c direction (Fin 0) (Fin r) h (CompoundObject.primary c))
  = Vector3.mk (Fin xv) (Fin yv) (Fin zv).
Proof.
  intros Hr Hp Hs.
  assert (Hr' : r <> 0) by lra.
  destruct (sphere_polar xv yv zv r Hr Hs) as (Ha & Hrho & Hy & Hx & Hz).
  destruct direction.
  - rewrite (position_move_UP c 0 r xv yv zv h Hr' Hp).
    rewrite Rmult_0_r, Rplus_0_r. now rewrite Hx, Hy, Hz.
  - rewrite (position_move_DOWN c 0 r xv yv zv h Hr' Hp).
    rewrite Rmult_0_r, Ropp_0, Rplus_0_r. now rewrite Hx, Hy, Hz.
  - rewrite (position_move_LEFT c 0 r xv yv zv h Hr' Hp).
    rewrite Rmult_0_r, Rplus_0_r. now rewrite Hx, Hy, Hz.
  - rewrite (position_move_RIGHT c 0 r xv yv zv h Hr' Hp).
    rewrite Rmult_0_r, Ropp_0, Rplus_0_r. now rewrite Hx, Hy, Hz.
Qed.

Lemma move_zero_delta_witness :
  Object3D.position
    (CompoundObject.move Examples.ship UP (Fin 0) (Fin 84) Examples.equator
       (CompoundObject.primary Examples.ship))
  = Vector3.mk (Fin 84) (Fin 0) (Fin 0).
Proof.
  apply (move_zero_delta Examples.ship UP 84 84 0 0 Examples.equator).
  - lra.
  - reflexivity.
  - lra.
Defined.

(** ** The edges of the move: the poles and NaN *)

(** X4: in real arithmetic, for a world radius r > 0 and a primary of real
    coordinates, when the y of the primary is at or beyond the radius
    (r <= |y|), the clamp makes the polar angle 0 or PI, and [move] LEFT or
    RIGHT, by any real delta and whatever the real x and z are, puts the
    primary on the pole (0, r, 0) or (0, -r, 0). *)
Theorem beyond_radius_to_pole (c : CompoundObject.t) (delta r xv yv zv : R)
    (h : Heap) :
  0 < r ->
  Object3D.position (h (CompoundObject.primary c))
    = Vector3.mk (Fin xv) (Fin yv) (Fin zv) ->
  r <= Rabs yv ->
  let pole := Vector3.mk (Fin 0) (Fin (if Rle_dec 0 yv then r else - r)) (Fin 0) in
  Object3D.position
    (CompoundObject.move c LEFT (Fin delta) (Fin r) h (CompoundObject.primary c))
  = pole /\
  Object3D.position
    (CompoundObject.move c RIGHT (Fin delta) (Fin r) h (CompoundObject.primary c))
  = pole.
Proof.
  intros Hr Hp Hy pole. unfold pole.
  assert (Hr' : r <> 0) by lra.
  rewrite (position_move_LEFT c delta r xv yv zv h Hr' Hp).
  rewrite (position_move_RIGHT c delta r xv yv zv h Hr' Hp).
  assert (Hinv : 0 < / r) by now apply Rinv_0_lt_compat.
  destruct (Rle_dec 0 yv) as [Hpos|Hneg].
  - rewrite Rabs_right in Hy by lra.
    assert (H1 : 1 <= yv / r).
    { replace 1 with (r * / r) by (field; lra). unfold Rdiv.
      apply Rmult_le_compat_r; lra. }
    rewrite (Rmin_left 1 (yv / r) H1), (Rmax_right (-1) 1) by lra.
    rewrite acos_1, sin_0, cos_0.
    split; f_equal; f_equal; ring.
  - rewrite Rabs_left in Hy by lra.
    assert (H1 : yv / r <= -1).
    { replace (-1) with (- r * / r) by (field; lra). unfold Rdiv.
      apply Rmult_le_compat_r; lra. }
    rewrite (Rmin_right 1 (yv / r)) by lra.
    rewrite (Rmax_left (-1) (yv / r) H1).
    replace (acos (-1)) with PI
      by (change (-1) with (- (1)); rewrite acos_opp, acos_1; ring).
    rewrite sin_PI, cos_PI.
    split; f_equal; f_equal; ring.
Qed.

Lemma beyond_radius_to_pole_witness :
  let pole := Vector3.mk (Fin 0) (Fin (if Rle_dec 0 100 then 84 else - (84))) (Fin 0) in
  Object3D.position
    (CompoundObject.move Examples.ship LEFT (Fin 1) (Fin 84) Examples.above
       (CompoundObject.primary Examples.ship))
  = pole /\
  Object3D.position
    (CompoundObject.move Examples.ship RIGHT (Fin 1) (Fin 84) Examples.above
       (CompoundObject.primary Examples.ship))
  = pole.
Proof.
  apply (beyond_radius_to_pole Examples.ship 1 84 0 100 0 Examples.above).
  - lra.
  - reflexivity.
  - rewrite Rabs_right; lra.
Defined.

(** X5: in real arithmetic, on the sphere of radius r > 0, for a real
    delta >= 0 and a polar angle acos(y / r) between 3 delta and
    PI - 3 delta, [move] UP lowers the y of the primary (or leaves it) and
    [move] DOWN raises it (or leaves it): UP is towards the pole
    (0, -r, 0). *)
Theorem up_lowers_y (c : CompoundObject.t) (delta r xv yv zv : R) (h : Heap) :
  0 < r ->
  Object3D.position (h (CompoundObject.primary c))
    = Vector3.mk (Fin xv) (Fin yv) (Fin zv) ->
  xv * xv + yv * yv + zv * zv = r * r ->
  0 <= delta ->
  3 * delta <= acos (yv / r) <= PI - 3 * delta ->
  exists y_up y_down : R,
    Vector3.y (Object3D.position
                 (CompoundObject.move c UP (Fin delta) (Fin r) h
                    (CompoundObject.primary c))) = Fin y_up /\
    Vector3.y (Object3D.position
                 (CompoundObject.move c DOWN (Fin delta) (Fin r) h
                    (CompoundObject.primary c))) = Fin y_down /\
    y_up <= yv <= y_down.
Proof.
  intros Hr Hp Hs Hd Ha.
  assert (Hr' : r <> 0) by lra.
  destruct (sphere_polar xv yv zv r Hr Hs) as (Hb & _ & Hy & _ & _).
  assert (Hc : Rmax (-1) (Rmin 1 (yv / r)) = yv / r).
  { apply clamp_id. rewrite <- Hy.
    replace (cos (acos (Rmax (-1) (Rmin 1 (yv / r)))) * r / r)
      with (cos (acos (Rmax (-1) (Rmin 1 (yv / r))))) by (field; lra).
    apply COS_bound. }
  rewrite Hc in Hb, Hy.
  rewrite (position_move_UP c delta r xv yv zv h Hr' Hp).
  rewrite (position_move_DOWN c delta r xv yv zv h Hr' Hp).
  rewrite Hc. simpl. do 2 eexists. split; [reflexivity |]. split; [reflexivity |].
  rewrite <- Hy at 2 3. split; apply Rmult_le_compat_r; try lra.
  - apply cos_decr_1; lra.
  - apply cos_decr_1; lra.
Qed.

Lemma up_lowers_y_witness :
  exists y_up y_down : R,
    Vector3.y (Object3D.position
                 (CompoundObject.move Examples.ship UP (Fin (1 / 10)) (Fin 84)
                    Examples.equator (CompoundObject.primary Examples.ship)))
      = Fin y_up /\
    Vector3.y (Object3D.position
                 (CompoundObject.move Examples.ship DOWN (Fin (1 / 10)) (Fin 84)
                    Examples.equator (CompoundObject.primary Examples.ship)))
      = Fin y_down /\
    y_up <= 0 <= y_down.
Proof.
  apply (up_lowers_y Examples.ship (1 / 10) 84 84 0 0 Examples.equator).
  - lra.
  - reflexivity.
  - lra.
  - lra.
  - replace (0 / 84) with 0 by lra. rewrite acos_0. generalize PI2_3_2. lra.
Defined.

Lemma mul_NaN_r (a : number) : (a * NaN)%js = NaN.
Proof. now destruct a as [|[|]|]. Qed.

Lemma atan2_NaN (a b : number) : a = NaN \/ b = NaN -> Math_atan2 a b = NaN.
Proof. intros [->| ->]; [reflexivity | now destruct a as [|[|]|]]. Qed.

(** X6: NaN stays: when the x or the z of the primary is NaN (as
    [#buildScene] makes z when x^2 + y^2 exceeds the square of the orbit
    radius), then after [move], in any direction, by any delta and for any
    radius, both x and z are NaN. *)
Theorem move_keeps_NaN (c : CompoundObject.t) (direction : Direction)
    (delta radius : number) (h : Heap) :
  let p := Object3D.position (h (CompoundObject.primary c)) in
  Vector3.x p = NaN \/ Vector3.z p = NaN ->
  let p' := Object3D.position
              (CompoundObject.move c direction delta radius h
                 (CompoundObject.primary c)) in
  Vector3.x p' = NaN /\ Vector3.z p' = NaN.
Proof.
  intros p Hp p'. unfold p'. unfold CompoundObject.move.
  fold p. unfold CompoundObject.theta. rewrite (atan2_NaN _ _ Hp).
  destruct direction; rewrite position_applyRotation; simpl;
    now rewrite !mul_NaN_r.
Qed.

Lemma move_keeps_NaN_witness :
  let p' := Object3D.position
              (CompoundObject.move Examples.ship LEFT (Fin 1) (Fin 84)
                 MoreExamples.lost (CompoundObject.primary Examples.ship)) in
  Vector3.x p' = NaN /\ Vector3.z p' = NaN.
Proof.
  apply (move_keeps_NaN Examples.ship LEFT (Fin 1) (Fin 84) MoreExamples.lost).
  right. reflexivity.
Defined.

(** ** The distance of the check *)

Lemma abs_sub_sym (a b : number) : Math_abs (a - b)%js = Math_abs (b - a)%js.
Proof.
  destruct a as [|s|u], b as [|t|v]; simpl; try reflexivity.
  - destruct s, t; reflexivity.
  - f_equal. fold (u - v) (v - u). apply Rabs_minus_sym.
Qed.

(** X7: the distance the collision check computes is symmetric in its two
    positions, on all numbers; on real coordinates, in real arithmetic, it
    is 0 exactly when the two positions are the same, and never negative. *)
Theorem distance_symmetric_zero (p1 p2 : Vector3.t) :
  Main.distance p1 p2 = Main.distance p2 p1 /\
  forall x1 y1 z1 x2 y2 z2 : R,
    p1 = Vector3.mk (Fin x1) (Fin y1) (Fin z1) ->
    p2 = Vector3.mk (Fin x2) (Fin y2) (Fin z2) ->
    exists d : R, Main.distance p1 p2 = Fin d /\ 0 <= d /\ (d = 0 <-> p1 = p2).
Proof.
  split.
  - unfold Main.distance.
    rewrite (abs_sub_sym (Vector3.x p1)), (abs_sub_sym (Vector3.y p1)),
      (abs_sub_sym (Vector3.z p1)). reflexivity.
  - intros x1 y1 z1 x2 y2 z2 -> ->. rewrite distance_Fin.
    exists (euclid x1 y1 z1 x2 y2 z2). split; [reflexivity |].
    unfold euclid. split; [apply sqrt_pos |]. split.
    + intros H.
      pose proof (Rle_0_sqr (x1 - x2)) as Hx.
      pose proof (Rle_0_sqr (y1 - y2)) as Hy.
      pose proof (Rle_0_sqr (z1 - z2)) as Hz.
      unfold Rsqr in Hx, Hy, Hz.
      apply sqrt_eq_0 in H; [| lra].
      assert (Ex : (x1 - x2) * (x1 - x2) = 0) by lra.
      assert (Ey : (y1 - y2) * (y1 - y2) = 0) by lra.
      assert (Ez : (z1 - z2) * (z1 - z2) = 0) by lra.
      apply Rsqr_0_uniq in Ex, Ey, Ez.
      f_equal; f_equal; lra.
    + intros [= -> -> ->].
      replace ((x2 - x2) * (x2 - x2) + (y2 - y2) * (y2 - y2) + (z2 - z2) * (z2 - z2))
        with 0 by ring.
      apply sqrt_0.
Qed.

Lemma add_NaN_r (a : number) : (a + NaN)%js = NaN.
Proof. now destruct a as [|[|]|]. Qed.

Lemma sub_NaN (a b : number) : a = NaN \/ b = NaN -> (a - b)%js = NaN.
Proof. intros [->| ->]; [reflexivity | now destruct a as [|[|]|]]. Qed.

Lemma orb_true_3 (a b c : bool) : a = true \/ b = true \/ c = true -> a || b || c = true.
Proof. destruct a, b, c; simpl; intuition discriminate. Qed.

(** A coordinate that is NaN, on either side, makes the distance NaN. *)
Lemma distance_NaN (p1 p2 : Vector3.t) :
  (Vector3.x p1 - Vector3.x p2)%js = NaN \/
  (Vector3.y p1 - Vector3.y p2)%js = NaN \/
  (Vector3.z p1 - Vector3.z p2)%js = NaN ->
  Main.distance p1 p2 = NaN.
Proof.
  intros H. unfold Main.distance.
  rewrite orb_true_3.
  - destruct H as [->|[->| ->]]; simpl; rewrite ?mul_NaN_r, ?add_NaN_r; reflexivity.
  - destruct H as [->|[->| ->]]; simpl; tauto.
Qed.

(** X8: a debris is never found to collide when one of its coordinates or
    one of the coordinates of the primary is NaN, or when it has no
    collision radius (the sum with [undefined] is NaN): the check leaves
    such a debris in the scene. *)
Theorem NaN_never_collides (m : Main.t) (o : ObjId) :
  let p1 := Object3D.position (Main.heap m o) in
  let p2 := Object3D.position
              (Main.heap m (CompoundObject.primary (Main.compound m))) in
  Vector3.x p1 = NaN \/ Vector3.y p1 = NaN \/ Vector3.z p1 = NaN \/
  Vector3.x p2 = NaN \/ Vector3.y p2 = NaN \/ Vector3.z p2 = NaN \/
  Object3D.raioCol (Main.heap m o) = None ->
  Main.collides m o = false /\
  (In o (Main.in_scene m) -> In o (Main.in_scene (Main.checkCollision m))).
Proof.
  intros p1 p2 H.
  assert (Hc : Main.collides m o = false).
  { unfold Main.collides.
    destruct H as [H|[H|[H|[H|[H|[H|H]]]]]].
    7: { unfold Main.threshold. rewrite H. simpl.
         now destruct (Main.distance_of m o) as [|[|]|]. }
    all: unfold Main.distance_of; fold p1 p2; rewrite distance_NaN; [reflexivity |].
    all: solve [ left; apply sub_NaN; auto
               | right; left; apply sub_NaN; auto
               | right; right; apply sub_NaN; auto ]. }
  split; [exact Hc |].
  intros Hin. rewrite checkCollision_bodies. apply bodies_in_scene_keep; tauto.
Qed.

Lemma orbit_zero :
  (Math_floor (Fin 0 * (Main.orbitMax - Main.orbitMin)) + Main.orbitMin)%js = Fin 84.
Proof.
  rewrite orbitMin_84, orbitMax_84. simpl. f_equal.
  replace (0 * (-84 + - (84))) with (IZR 0) by (simpl; lra).
  rewrite ZfloorZ. simpl. lra.
Qed.

Lemma sqrt_beyond_orbit :
  Math_sqrt (Main.pow2 (Fin 70 * Fin (12 / 10)) - Main.pow2 (Fin 84)
             - Main.pow2 (Fin 84))%js = NaN.
Proof.
  unfold Main.pow2. simpl. rewrite Rneg_neg by lra. reflexivity.
Qed.

Lemma scene_zero_cube_z :
  Vector3.z (Object3D.position (Main.heap MoreExamples.scene_zero 4%nat)) = NaN.
Proof.
  unfold MoreExamples.scene_zero.
  run_constructor. rewrite !orbit_zero, sqrt_beyond_orbit.
  now destruct (Fin (5 / 10) <=? Fin 0)%js.
Qed.

Lemma NaN_never_collides_witness :
  Main.collides MoreExamples.scene_zero 4%nat = false /\
  (In 4%nat (Main.in_scene MoreExamples.scene_zero) ->
   In 4%nat (Main.in_scene (Main.checkCollision MoreExamples.scene_zero))).
Proof.
  apply (NaN_never_collides MoreExamples.scene_zero 4%nat).
  right. right. left. exact scene_zero_cube_z.
Defined.

(** ** What the check touches *)

Section RemoveOther.

Variables (this object : ObjId) (h : Heap).

Lemma remove_children_other (o : ObjId) :
  o <> this ->
  Object3D.children (Object3D_remove this object h o) = Object3D.children (h o).
Proof.
  intros Ho. unfold Object3D_remove.
  destruct (Array.indexOf (Object3D.children (h this)) object); [| reflexivity].
  rewrite modify_other by assumption.
  unfold modify. destruct (Nat.eqb o object); reflexivity.
Qed.

Lemma remove_parent_other (o : ObjId) :
  o <> object ->
  Object3D.parent (Object3D_remove this object h o) = Object3D.parent (h o).
Proof.
  intros Ho. unfold Object3D_remove.
  destruct (Array.indexOf (Object3D.children (h this)) object); [| reflexivity].
  unfold modify. destruct (Nat.eqb o this); simpl;
    destruct (Nat.eqb_spec o object); try contradiction; reflexivity.
Qed.

Lemma remove_absent :
  ~ In object (Object3D.children (h this)) -> Object3D_remove this object h = h.
Proof.
  intros H. unfold Object3D_remove.
  now rewrite (proj2 (indexOf_None _ _) H).
Qed.

End RemoveOther.

(** A property of the states of the loop is kept by the whole loop when each
    turn keeps it. *)
Lemma bodies_invariant (P : Main.t -> Prop) (m : Main.t) (indices : list nat) :
  P m ->
  (forall m' i, same_objects m m' -> P m' -> P (Main.checkCollision_body i m')) ->
  P (bodies indices m).
Proof.
  intros H0 Hstep.
  assert (G : forall l m', same_objects m m' -> P m' -> P (bodies l m')).
  { induction l as [|i l IH]; intros m' Hs Hp; simpl; [assumption |].
    apply IH.
    - eapply same_objects_trans; [exact Hs | apply body_same_objects].
    - now apply Hstep. }
  apply G; [apply same_objects_refl | assumption].
Qed.

Lemma body_heap (m : Main.t) (i : nat) :
  Main.heap (Main.checkCollision_body i m) = Main.heap m \/
  exists o, nth_error (Main.litter m) i = Some o /\
            Main.heap (Main.checkCollision_body i m)
              = Object3D_remove (Main.scene m) o (Main.heap m).
Proof.
  unfold Main.checkCollision_body.
  destruct (nth_error (Main.litter m) i) as [o|]; [| now left].
  destruct (Main.collides _ o); [| now left].
  right. exists o. split; reflexivity.
Qed.

(** X9: the collision check touches the scene graph only: it keeps the
    array of the scene objects (a debris taken out of the scene is still
    listed in it), the compound, and every collision radius; the children
    of every object but the scene, and the parent of every object that is
    not in the litter, are as before. *)
Theorem check_touches_scene_graph_only (m : Main.t) :
  let m' := Main.checkCollision m in
  Main.sceneObjects m' = Main.sceneObjects m /\
  Main.compound m' = Main.compound m /\
  Main.scene m' = Main.scene m /\
  (forall o, Object3D.raioCol (Main.heap m' o) = Object3D.raioCol (Main.heap m o)) /\
  (forall o, o <> Main.scene m ->
     Object3D.children (Main.heap m' o) = Object3D.children (Main.heap m o)) /\
  (forall o, ~ In o (Main.litter m) ->
     Object3D.parent (Main.heap m' o) = Object3D.parent (Main.heap m o)).
Proof.
  intros m'. unfold m'.
  destruct (checkCollision_same_objects m) as (S & C & L & O & P).
  split; [exact O |]. split; [exact C |]. split; [exact S |].
  split; [intros o; apply P |].
  rewrite checkCollision_bodies. split; intros o Ho.
  - apply (bodies_invariant
             (fun m' => Object3D.children (Main.heap m' o)
                        = Object3D.children (Main.heap m o))); [reflexivity |].
    intros m1 i (S1 & _) H1. rewrite <- H1.
    destruct (body_heap m1 i) as [E|(o' & _ & E)]; rewrite E; [reflexivity |].
    apply remove_children_other. congruence.
  - apply (bodies_invariant
             (fun m' => Object3D.parent (Main.heap m' o)
                        = Object3D.parent (Main.heap m o))); [reflexivity |].
    intros m1 i (_ & _ & L1 & _) H1. rewrite <- H1.
    destruct (body_heap m1 i) as [E|(o' & Hn & E)]; rewrite E; [reflexivity |].
    apply remove_parent_other. intros ->. apply Ho.
    rewrite <- L1. eapply nth_error_In, Hn.
Qed.

Lemma bodies_heap_fixed (indices : list nat) (m : Main.t) :
  (forall o, In o (Main.litter m) -> Main.collides m o = true ->
             ~ In o (Main.in_scene m)) ->
  Main.heap (bodies indices m) = Main.heap m.
Proof.
  revert m. induction indices as [|i l IH]; intros m H; simpl; [reflexivity |].
  assert (E : Main.heap (Main.checkCollision_body i m) = Main.heap m).
  { unfold Main.checkCollision_body.
    destruct (nth_error (Main.litter m) i) as [o|] eqn:En; [| reflexivity].
    change (Main.collides (Main.emit _ m) o) with (Main.collides m o).
    destruct (Main.collides m o) eqn:Ec; [| reflexivity].
    simpl. apply remove_absent. apply H; [eapply nth_error_In, En | assumption]. }
  fold (bodies l (Main.checkCollision_body i m)).
  rewrite IH; [exact E |].
  destruct (body_same_objects m i) as (S & C & L & O & P).
  intros o Ho Hc. unfold Main.in_scene. rewrite E, S.
  destruct (same_objects_collides m _ o (body_same_objects m i)) as (_ & _ & Ec).
  apply H; [now rewrite <- L | now rewrite <- Ec].
Qed.



(** ** The positions and the sizes [#buildScene] draws *)

Lemma orbit_int_bounds (r0 : R) :
  0 <= r0 < 1 -> (-84 <= Zfloor (r0 * (-84 + - (84))) + 84 <= 84)%Z.
Proof.
  intros H0.
  pose proof (Zfloor_bound (r0 * (-84 + - (84)))) as [Hl Hu].
  assert (H1 : IZR (Zfloor (r0 * (-84 + - (84)))) <= IZR 0) by (simpl; nra).
  assert (H2 : IZR (-169) < IZR (Zfloor (r0 * (-84 + - (84))))) by (simpl; nra).
  apply le_IZR in H1. apply lt_IZR in H2. lia.
Qed.

(** The third coordinate: on the sphere of the orbit when the square root
    is taken of a number that is not negative, NaN otherwise. *)
Lemma orbit_z (X Y : R) (pos : number) :
  let s := Math_sqrt (Main.pow2 (Fin 70 * Fin (12 / 10)) - Main.pow2 (Fin X)
                      - Main.pow2 (Fin Y))%js in
  let zv := if (Fin (5 / 10) <=? pos)%js then s else neg s in
  (X * X + Y * Y <= 84 * 84 -> on_sphere 84 (Vector3.mk (Fin X) (Fin Y) zv)) /\
  (84 * 84 < X * X + Y * Y -> zv = NaN).
Proof.
  intros s zv. unfold zv, s, Main.pow2.
  destruct (Fin (5 / 10) <=? pos)%js; simpl;
    replace (70 * (12 / 10) * (70 * (12 / 10)) + - (X * X) + - (Y * Y))
      with (84 * 84 - X * X - Y * Y) by lra;
    (split; intros H;
     [ rewrite Rneg_pos by lra;
       assert (Hs : sqrt (84 * 84 - X * X - Y * Y) * sqrt (84 * 84 - X * X - Y * Y)
                    = 84 * 84 - X * X - Y * Y) by (apply sqrt_sqrt; lra);
       unfold on_sphere; simpl; do 3 eexists; (split; [reflexivity | lra])
     | rewrite Rneg_neg by lra; reflexivity ]).
Qed.

(** X11: the position [#buildScene] draws for a debris or for the ship, from
    three calls of [Math.random] whose first two give numbers of [0, 1[, has
    integer x and y between -84 and 84; its z is NaN when
    x^2 + y^2 > 84^2, and when x^2 + y^2 <= 84^2 the position is, in real
    arithmetic (with the exact square root), on the sphere of the orbit, of
    radius 84. *)
Theorem orbitPosition_on_orbit_or_NaN (rnd : nat -> R) (b : Main.Build) :
  0 <= rnd (Main.draws b) < 1 ->
  0 <= rnd (S (Main.draws b)) < 1 ->
  let p := fst (Main.orbitPosition rnd Main.orbitMin Main.orbitMax b) in
  let b' := snd (Main.orbitPosition rnd Main.orbitMin Main.orbitMax b) in
  Main.draws b' = (3 + Main.draws b)%nat /\ Main.built b' = Main.built b /\
  exists kx ky : Z,
    (-84 <= kx <= 84)%Z /\ (-84 <= ky <= 84)%Z /\
    Vector3.x p = Fin (IZR kx) /\ Vector3.y p = Fin (IZR ky) /\
    ((kx * kx + ky * ky <= 84 * 84)%Z -> on_sphere 84 p) /\
    ((84 * 84 < kx * kx + ky * ky)%Z -> Vector3.z p = NaN).
Proof.
  intros H0 H1 p b'. unfold p, b'.
  unfold Main.orbitPosition, Main.randomInt, Main.random.
  rewrite orbitMin_84, orbitMax_84. cbn [fst snd Main.draws Main.built Main.next].
  split; [reflexivity |]. split; [reflexivity |].
  exists (Zfloor (rnd (Main.draws b) * (-84 + - (84))) + 84)%Z,
         (Zfloor (rnd (S (Main.draws b)) * (-84 + - (84))) + 84)%Z.
  split; [now apply orbit_int_bounds |]. split; [now apply orbit_int_bounds |].
  assert (Ex : (Math_floor (Fin (rnd (Main.draws b)) * (Fin (-84) - Fin 84))
                + Fin 84)%js
               = Fin (IZR (Zfloor (rnd (Main.draws b) * (-84 + - (84))) + 84)))
    by (simpl; now rewrite plus_IZR).
  assert (Ey : (Math_floor (Fin (rnd (S (Main.draws b))) * (Fin (-84) - Fin 84))
                + Fin 84)%js
               = Fin (IZR (Zfloor (rnd (S (Main.draws b)) * (-84 + - (84))) + 84)))
    by (simpl; now rewrite plus_IZR).
  rewrite Ex, Ey. cbn [Vector3.x Vector3.y Vector3.z].
  split; [reflexivity |]. split; [reflexivity |].
  set (kx := (Zfloor (rnd (Main.draws b) * (-84 + - (84))) + 84)%Z).
  set (ky := (Zfloor (rnd (S (Main.draws b)) * (-84 + - (84))) + 84)%Z).
  destruct (orbit_z (IZR kx) (IZR ky) (Fin (rnd (S (S (Main.draws b))))))
    as [Hon Hnan].
  split; intros H.
  - apply Hon. apply IZR_le in H.
    rewrite plus_IZR, !mult_IZR in H. exact H.
  - apply Hnan. apply IZR_lt in H.
    rewrite plus_IZR, !mult_IZR in H. exact H.
Qed.

Lemma orbitPosition_on_orbit_or_NaN_witness :
  let p := fst (Main.orbitPosition Examples.half Main.orbitMin Main.orbitMax
                  MoreExamples.start) in
  let b' := snd (Main.orbitPosition Examples.half Main.orbitMin Main.orbitMax
                   MoreExamples.start) in
  Main.draws b' = (3 + Main.draws MoreExamples.start)%nat /\
  Main.built b' = Main.built MoreExamples.start /\
  exists kx ky : Z,
    (-84 <= kx <= 84)%Z /\ (-84 <= ky <= 84)%Z /\
    Vector3.x p = Fin (IZR kx) /\ Vector3.y p = Fin (IZR ky) /\
    ((kx * kx + ky * ky <= 84 * 84)%Z -> on_sphere 84 p) /\
    ((84 * 84 < kx * kx + ky * ky)%Z -> Vector3.z p = NaN).
Proof.
  apply (orbitPosition_on_orbit_or_NaN Examples.half MoreExamples.start).
  - unfold Examples.half. lra.
  - unfold Examples.half. lra.
Defined.

Ltac debris_radius :=
  run_constructor; rewrite ?size_3; unfold Main.pow2; simpl;
  rewrite ?(Rneg_pos 3) by lra; simpl;
  rewrite ?(Rzero_neq 2) by lra; simpl;
  rewrite ?Rneg_pos by lra; reflexivity.

(** X12: whatever [Math.random] gives, the sizes of the debris are all 3,
    since the bounds [min] and [max] of the draw are both 3: in the scene
    the constructor builds the five cubes (objects 4 to 8) have the
    collision radius sqrt(3)/2 * 3 and the fifteen cylinders, cones and
    pyramids (objects 9 to 23) have sqrt(1.5^2 + 1.5^2). *)
Theorem debris_radii (rnd : nat -> R) :
  Main.sizeMin = Fin 3 /\ Main.sizeMax = Fin 3 /\
  (forall r0 : R,
     (Math_floor (Fin r0 * (Main.sizeMax - Main.sizeMin)) + Main.sizeMin)%js = Fin 3) /\
  (forall o, In o (seq 4 5) ->
     Object3D.raioCol (Main.heap (Main.constructor rnd) o)
       = Some (Fin (sqrt 3 / 2 * 3))) /\
  (forall o, In o (seq 9 15) ->
     Object3D.raioCol (Main.heap (Main.constructor rnd) o)
       = Some (Fin (sqrt (3 / 2 * (3 / 2) + 3 / 2 * (3 / 2))))).
Proof.
  split; [apply sizeMin_3 |]. split; [apply sizeMax_3 |].
  split; [apply size_3 |].
  split; intros o H; simpl in H;
    repeat (destruct H as [<-|H]; [debris_radius |]); contradiction.
Qed.

(** ** The compound and its group *)

Lemma indexOf_last (l : list ObjId) (o : ObjId) :
  ~ In o l -> Array.indexOf (l ++ [o]) o = Some (length l).
Proof.
  induction l as [|a l IH]; intros H; simpl.
  - now rewrite Nat.eqb_refl.
  - destruct (Nat.eqb_spec a o) as [E|E]; [exfalso; apply H; now left |].
    rewrite IH; [reflexivity |]. intros H'. apply H. now right.
Qed.

Lemma splice_last (l : list ObjId) (o : ObjId) :
  snd (Array.splice (l ++ [o]) (length l) 1) = l.
Proof.
  induction l as [|a l IH]; [reflexivity |].
  simpl length. rewrite <- app_comm_cons, splice_cons_S. now rewrite IH.
Qed.

Section Add.

Variables (this object : ObjId) (h : Heap).
Hypothesis Hneq : object <> this.
Hypothesis Hnew : ~ In object (Object3D.children (h this)).

Lemma add_parent :
  Object3D.parent (Object3D_add this object h object) = Some this.
Proof.
  unfold Object3D_add. destruct (Nat.eqb_spec object this); [contradiction |].
  rewrite modify_other by assumption. now rewrite modify_same.
Qed.

Lemma add_children :
  Object3D.children (Object3D_add this object h this)
    = Object3D.children (h this) ++ [object].
Proof.
  unfold Object3D_add. destruct (Nat.eqb_spec object this); [contradiction |].
  rewrite modify_same. simpl. unfold Array.push. f_equal.
  rewrite modify_other by congruence.
  destruct (Object3D.parent (h object)) as [p|]; [| reflexivity].
  destruct (Nat.eq_dec p this) as [->|Hp].
  - now rewrite remove_absent.
  - apply remove_children_other. congruence.
Qed.

Lemma add_keeps (o : ObjId) :
  Object3D.position (Object3D_add this object h o) = Object3D.position (h o).
Proof.
  unfold Object3D_add. destruct (Nat.eqb object this); [reflexivity |].
  unfold modify.
  destruct (Nat.eqb o this), (Nat.eqb o object); simpl;
    destruct (Object3D.parent (h object)); try reflexivity; apply remove_keeps.
Qed.

End Add.

(** X13: [setSecondary] makes the object a child of the primary and not of
    the group: for an object that is neither the group nor the primary and
    was not a child of the group, after the call its parent is the primary,
    it is among the children of the primary, the children of the group are
    as before, and no position has changed. *)
Theorem setSecondary_reparents (o : ObjId) (c : CompoundObject.t) (h : Heap) :
  o <> CompoundObject.group c ->
  o <> CompoundObject.primary c ->
  CompoundObject.primary c <> CompoundObject.group c ->
  ~ In o (Object3D.children (h (CompoundObject.group c))) ->
  let c' := fst (CompoundObject.setSecondary o c h) in
  let h' := snd (CompoundObject.setSecondary o c h) in
  CompoundObject.secondary c' = o /\
  CompoundObject.primary c' = CompoundObject.primary c /\
  CompoundObject.group c' = CompoundObject.group c /\
  Object3D.parent (h' o) = Some (CompoundObject.primary c) /\
  In o (Object3D.children (h' (CompoundObject.primary c))) /\
  Object3D.children (h' (CompoundObject.group c))
    = Object3D.children (h (CompoundObject.group c)) /\
  forall o', Object3D.position (h' o') = Object3D.position (h o').
Proof.
  intros Hg Hp Hpg Hnew c' h'. unfold c', h', CompoundObject.setSecondary.
  cbn [fst snd].
  set (g := CompoundObject.group c) in *. set (p := CompoundObject.primary c) in *.
  set (h1 := Object3D_add g o h).
  assert (P1 : Object3D.parent (h1 o) = Some g) by now apply add_parent.
  assert (C1 : Object3D.children (h1 g) = Object3D.children (h g) ++ [o])
    by now apply add_children.
  split; [reflexivity |]. split; [reflexivity |]. split; [reflexivity |].
  assert (E : Object3D_add p o h1
              = modify (modify (Object3D_remove g o h1) o
                          (Object3D.set_parent (Some p))) p
                  (fun ob => Object3D.set_children
                               (Array.push (Object3D.children ob) o) ob)).
  { unfold Object3D_add. destruct (Nat.eqb_spec o p); [contradiction |].
    now rewrite P1. }
  split; [| split; [| split]].
  - rewrite E, modify_other by assumption. now rewrite modify_same.
  - rewrite E, modify_same. simpl. unfold Array.push.
    apply in_or_app. right. now left.
  - rewrite E, !modify_other by congruence.
    rewrite remove_children, C1, (indexOf_last _ _ Hnew). apply splice_last.
  - intros o'. rewrite E. unfold modify.
    destruct (Nat.eqb o' p), (Nat.eqb o' o); simpl;
      rewrite (proj1 (remove_keeps g o h1 o')); apply add_keeps.
Qed.

Lemma setSecondary_reparents_witness :
  let c' := fst (CompoundObject.setSecondary 26 Examples.ship Examples.equator) in
  let h' := snd (CompoundObject.setSecondary 26 Examples.ship Examples.equator) in
  CompoundObject.secondary c' = 26%nat /\
  CompoundObject.primary c' = CompoundObject.primary Examples.ship /\
  CompoundObject.group c' = CompoundObject.group Examples.ship /\
  Object3D.parent (h' 26%nat) = Some (CompoundObject.primary Examples.ship) /\
  In 26%nat (Object3D.children (h' (CompoundObject.primary Examples.ship))) /\
  Object3D.children (h' (CompoundObject.group Examples.ship))
    = Object3D.children (Examples.equator (CompoundObject.group Examples.ship)) /\
  forall o', Object3D.position (h' o') = Object3D.position (Examples.equator o').
Proof.
  apply (setSecondary_reparents 26 Examples.ship Examples.equator).
  - simpl. lia.
  - simpl. lia.
  - simpl. lia.
  - simpl. tauto.
Defined.

Lemma position_group_move (c : CompoundObject.t) (dir : Direction)
    (delta : number) (h : Heap) :
  Object3D.position (GroupCompoundObject.move c dir delta h (CompoundObject.group c))
  = match dir with
    | UP => GroupCompoundObject.add_y (GroupCompoundObject.__MOVE_STEP * delta)%js
    | DOWN => GroupCompoundObject.sub_y (GroupCompoundObject.__MOVE_STEP * delta)%js
    | LEFT => GroupCompoundObject.sub_x (GroupCompoundObject.__MOVE_STEP * delta)%js
    | RIGHT => GroupCompoundObject.add_x (GroupCompoundObject.__MOVE_STEP * delta)%js
    end (Object3D.position (h (CompoundObject.group c))).
Proof.
  unfold GroupCompoundObject.move. destruct dir; now rewrite modify_same.
Qed.

(** X14: on real numbers, in real arithmetic, the translations of the
    earlier [move] undo each other and compose: UP then DOWN by the same delta (and DOWN then UP,
    LEFT then RIGHT, RIGHT then LEFT) gives the group its position back, UP
    by d then UP by d' is UP by d + d', UP and RIGHT give the same position
    in either order, and no object but the group is changed; with an
    infinite delta UP then DOWN leaves y NaN. *)
Theorem group_move_round_trip (c : CompoundObject.t) (d d' xv yv zv : R)
    (h : Heap) :
  Object3D.position (h (CompoundObject.group c))
    = Vector3.mk (Fin xv) (Fin yv) (Fin zv) ->
  let g := CompoundObject.group c in
  let mv := fun dir delta => GroupCompoundObject.move c dir delta in
  let p0 := Vector3.mk (Fin xv) (Fin yv) (Fin zv) in
  Object3D.position (mv DOWN (Fin d) (mv UP (Fin d) h) g) = p0 /\
  Object3D.position (mv UP (Fin d) (mv DOWN (Fin d) h) g) = p0 /\
  Object3D.position (mv RIGHT (Fin d) (mv LEFT (Fin d) h) g) = p0 /\
  Object3D.position (mv LEFT (Fin d) (mv RIGHT (Fin d) h) g) = p0 /\
  Object3D.position (mv UP (Fin d') (mv UP (Fin d) h) g)
    = Object3D.position (mv UP (Fin (d + d')) h g) /\
  Object3D.position (mv UP (Fin d) (mv RIGHT (Fin d') h) g)
    = Object3D.position (mv RIGHT (Fin d') (mv UP (Fin d) h) g) /\
  (forall dir delta o, o <> g -> mv dir delta h o = h o) /\
  Vector3.y (Object3D.position (mv DOWN (Inf false) (mv UP (Inf false) h) g)) = NaN.
Proof.
  intros Hp g mv p0.
  assert (F : forall dir delta o, o <> g ->
                GroupCompoundObject.move c dir delta h o = h o).
  { intros dir delta o Ho. unfold GroupCompoundObject.move.
    destruct dir; now rewrite modify_other. }
  subst mv p0 g. cbv beta. rewrite !position_group_move, !Hp.
  unfold GroupCompoundObject.add_y,
    GroupCompoundObject.sub_y, GroupCompoundObject.add_x,
    GroupCompoundObject.sub_x, GroupCompoundObject.__MOVE_STEP,
    Vector3.set_x, Vector3.set_y.
  cbn [Vector3.x Vector3.y Vector3.z]. simpl.
  do 6 (split; [f_equal; f_equal; ring |]).
  split; [exact F |].
  rewrite Rzero_neq by lra. rewrite (Rneg_pos 20) by lra. reflexivity.
Qed.

Lemma group_move_round_trip_witness :
  let g := CompoundObject.group Examples.ship in
  let mv := fun dir delta => GroupCompoundObject.move Examples.ship dir delta in
  let p0 := Vector3.mk (Fin 0) (Fin 0) (Fin 0) in
  Object3D.position (mv DOWN (Fin 1) (mv UP (Fin 1) Examples.equator) g) = p0 /\
  Object3D.position (mv UP (Fin 1) (mv DOWN (Fin 1) Examples.equator) g) = p0 /\
  Object3D.position (mv RIGHT (Fin 1) (mv LEFT (Fin 1) Examples.equator) g) = p0 /\
  Object3D.position (mv LEFT (Fin 1) (mv RIGHT (Fin 1) Examples.equator) g) = p0 /\
  Object3D.position (mv UP (Fin 2) (mv UP (Fin 1) Examples.equator) g)
    = Object3D.position (mv UP (Fin (1 + 2)) Examples.equator g) /\
  Object3D.position (mv UP (Fin 1) (mv RIGHT (Fin 2) Examples.equator) g)
    = Object3D.position (mv RIGHT (Fin 2) (mv UP (Fin 1) Examples.equator) g) /\
  (forall dir delta o, o <> g -> mv dir delta Examples.equator o = Examples.equator o) /\
  Vector3.y (Object3D.position
               (mv DOWN (Inf false) (mv UP (Inf false) Examples.equator) g)) = NaN.
Proof.
  apply (group_move_round_trip Examples.ship 1 2 0 0 0 Examples.equator).
  reflexivity.
Defined.

(** X15: on the sphere of radius r > 0 a full turn brings the primary back:
    [move] LEFT, or RIGHT, by the delta that makes 3 delta = 2 PI leaves its
    position as it was. *)
Theorem full_turn (c : CompoundObject.t) (r xv yv zv : R) (h : Heap) :
  0 < r ->
  Object3D.position (h (CompoundObject.primary c))
    = Vector3.mk (Fin xv) (Fin yv) (Fin zv) ->
  xv * xv + yv * yv + zv * zv = r * r ->
  Object3D.position
    (CompoundObject.move c LEFT (Fin (2 * PI / 3)) (Fin r) h
       (CompoundObject.primary c))
  = Vector3.mk (Fin xv) (Fin yv) (Fin zv) /\
  Object3D.position
    (CompoundObject.move c RIGHT (Fin (2 * PI / 3)) (Fin r) h
       (CompoundObject.primary c))
  = Vector3.mk (Fin xv) (Fin yv) (Fin zv).
Proof.
  intros Hr Hp Hs.
  assert (Hr' : r <> 0) by lra.
  destruct (sphere_polar xv yv zv r Hr Hs) as (_ & _ & Hy & Hx & Hz).
  rewrite (position_move_LEFT c _ r xv yv zv h Hr' Hp).
  rewrite (position_move_RIGHT c _ r xv yv zv h Hr' Hp).
  replace (3 * (2 * PI / 3)) with (2 * PI) by field.
  assert (T : forall t, sin (t + 2 * PI) = sin t /\ cos (t + 2 * PI) = cos t /\
                        sin (t + - (2 * PI)) = sin t /\ cos (t + - (2 * PI)) = cos t).
  { intros t. fold (t - 2 * PI).
    rewrite sin_plus, cos_plus, sin_minus, cos_minus, sin_2PI, cos_2PI.
    repeat split; ring. }
  destruct (T (Ratan2 xv zv)) as (-> & -> & -> & ->).
  now rewrite Hx, Hy, Hz.
Qed.

Lemma full_turn_witness :
  Object3D.position
    (CompoundObject.move Examples.ship LEFT (Fin (2 * PI / 3)) (Fin 84)
       Examples.equator (CompoundObject.primary Examples.ship))
  = Vector3.mk (Fin 84) (Fin 0) (Fin 0) /\
  Object3D.position
    (CompoundObject.move Examples.ship RIGHT (Fin (2 * PI / 3)) (Fin 84)
       Examples.equator (CompoundObject.primary Examples.ship))
  = Vector3.mk (Fin 84) (Fin 0) (Fin 0).
Proof.
  apply (full_turn Examples.ship 84 84 0 0 Examples.equator).
  - lra.
  - reflexivity.
  - lra.
Defined.

(** ** The scene graph the constructor builds, and what the check keeps *)

(** X16: whatever [Math.random] gives, the scene the constructor builds is
    well formed for the collision check: the scene has no child twice, the
    litter is twenty different debris, all children of the scene and all
    with the scene as parent; the array of the scene objects lists the
    children of the scene; the scene and the primary are not in the litter;
    the primary is the one child of the group, and the group is at the
    origin, so that the position of the primary is its place in the
    scene. *)
Theorem constructor_well_formed (rnd : nat -> R) :
  let m := Main.constructor rnd in
  NoDup (Main.in_scene m) /\ NoDup (Main.litter m) /\
  length (Main.litter m) = 20%nat /\
  incl (Main.litter m) (Main.in_scene m) /\
  Main.sceneObjects m = Main.in_scene m /\
  ~ In (Main.scene m) (Main.litter m) /\
  ~ In (CompoundObject.primary (Main.compound m)) (Main.litter m) /\
  Object3D.children (Main.heap m (CompoundObject.group (Main.compound m)))
    = [CompoundObject.primary (Main.compound m)] /\
  Object3D.position (Main.heap m (CompoundObject.group (Main.compound m)))
    = Vector3.zero /\
  (forall o, In o (Main.in_scene m) ->
     Object3D.parent (Main.heap m o) = Some (Main.scene m)).
Proof.
  intros m. unfold m.
  split; [apply constructor_NoDup |].
  split; [rewrite constructor_litter; apply seq_NoDup |].
  split; [reflexivity |].
  split.
  { rewrite constructor_litter, constructor_in_scene. intros a Ha.
    right. apply in_or_app. now left. }
  split; [reflexivity |].
  split; [rewrite constructor_litter, in_seq; simpl; lia |].
  split; [rewrite constructor_litter, constructor_compound, in_seq; simpl; lia |].
  split; [reflexivity |]. split; [reflexivity |].
  intros o H. rewrite constructor_in_scene in H. simpl in H.
  repeat (destruct H as [<-|H]; [reflexivity |]). contradiction.
Qed.




Lemma collides_NaN_primary (m : Main.t) (o : ObjId) :
  let p2 := Object3D.position
              (Main.heap m (CompoundObject.primary (Main.compound m))) in
  Vector3.x p2 = NaN \/ Vector3.y p2 = NaN \/ Vector3.z p2 = NaN ->
  Main.collides m o = false.
Proof.
  intros p2 H. unfold Main.collides, Main.distance_of. fold p2.
  rewrite distance_NaN; [reflexivity |].
  destruct H as [H|[H|H]].
  - left. apply sub_NaN. now right.
  - right. left. apply sub_NaN. now right.
  - right. right. apply sub_NaN. now right.
Qed.

(** X18: when a coordinate of the primary is NaN, a collision check removes
    nothing: the heap and the children of the scene are as before, whatever
    the litter is. *)
Theorem lost_ship_removes_nothing (m : Main.t) :
  let p2 := Object3D.position
              (Main.heap m (CompoundObject.primary (Main.compound m))) in
  Vector3.x p2 = NaN \/ Vector3.y p2 = NaN \/ Vector3.z p2 = NaN ->
  Main.heap (Main.checkCollision m) = Main.heap m /\
  Main.in_scene (Main.checkCollision m) = Main.in_scene m.
Proof.
  intros p2 H.
  assert (E : Main.heap (Main.checkCollision m) = Main.heap m).
  { rewrite checkCollision_bodies. apply bodies_heap_fixed.
    intros o _ Hc. rewrite (collides_NaN_primary m o H) in Hc. discriminate. }
  split; [exact E |].
  unfold Main.in_scene. rewrite E.
  now destruct (checkCollision_same_objects m) as (-> & _).
Qed.

Lemma scene_zero_ship_z :
  Vector3.z (Object3D.position (Main.heap MoreExamples.scene_zero 25%nat)) = NaN.
Proof.
  unfold MoreExamples.scene_zero.
  run_constructor. rewrite !orbit_zero, sqrt_beyond_orbit.
  now destruct (Fin (5 / 10) <=? Fin 0)%js.
Qed.

Lemma lost_ship_removes_nothing_witness :
  Main.heap (Main.checkCollision MoreExamples.scene_zero)
    = Main.heap MoreExamples.scene_zero /\
  Main.in_scene (Main.checkCollision MoreExamples.scene_zero)
    = Main.in_scene MoreExamples.scene_zero.
Proof.
  apply (lost_ship_removes_nothing MoreExamples.scene_zero).
  right. right. exact scene_zero_ship_z.
Defined.
